(** * Action dispatch, event bubbling and the render components

    A shallow embedding of the runtime components [ButtonRender], [Crumb]
    and [HeaderRender] (with [getIconSize] and [getTextSize]), together with
    a model of the two collaborators they import but which live in other
    modules of the runtime: the action dispatcher ([useDispatcher], from
    [event.tsx]) and the bubble marker ([doBubble], from [bubble.ts]).

    Conventions.
    - An optional field [f?: T] is an [option T]; JavaScript truthiness is
      written out ([truthy_flag], [truthy_string], [js_or]).
    - The decimal literals [1], [0.8] and [0.6] are read as the rationals
      they denote; [Math_round] is [floor (x + 1/2)].  None of the products
      the components round lies within floating-point error of a half, so
      the rational reading and the double reading round alike.
    - A click handler is the list of calls it makes to its collaborators,
      in program order; [exec] gives those calls their meaning on a
      [World]. *)

From Stdlib Require Import ZArith QArith Qround.
From stdpp Require Import base gmap strings list.

(** ** JavaScript values *)

(** [x ?? null]: an absent field and [null] are the same [None]. *)
Definition nullish {A : Type} (x : option A) : option A := x.

(** Truthiness of an optional boolean field ([props.outline], [props.full]). *)
Definition truthy_flag (b : option bool) : bool := default false b.

(** Truthiness of a string: only the empty string is falsy. *)
Definition truthy_string (s : string) : bool := negb (String.eqb s "").

(** [x || d] for a field whose values, when present, are all truthy
    (objects, non-empty string literals). *)
Definition js_or {A : Type} (x : option A) (d : A) : A := default d x.

(** [Math.round]: the nearest integer, halves rounded up. *)
Definition Math_round (x : Q) : Z := Qfloor (x + (1 # 2)).

(** ** Types shared by the components *)

(** [Color], from [theme.tsx]: a tagged object [{ type, def }]. *)
Record Color := { type : string; def : Z }.

Inductive ButtonSize := Small | Medium | Large.

Inductive HeaderSize := HLarge | HMedium | HSmall.

(** The string a [HeaderSize] is at run time. *)
Definition HeaderSize_tag (s : HeaderSize) : string :=
  match s with
  | HLarge => "Large"
  | HMedium => "Medium"
  | HSmall => "Small"
  end.

(** A DOM node and a click event instance. *)
Definition Element := nat.

Record ClickEvent := { event_id : nat; currentTarget : Element }.

Definition same_event (a b : ClickEvent) : bool :=
  Nat.eqb (event_id a) (event_id b).

(** The payload handed to [dispatch]: [null] for [EventKey<null>], the
    edited text for [EventKey<string>]. *)
Inductive Payload := PNull | PText (s : string).

Definition Error := string.

(** How a call ends: it returns, or an exception leaves it. *)
Inductive Completion := Returned | Threw (e : Error).

(** Result of a function that may [throw]. *)
Inductive Exc (A : Type) := Ok (a : A) | Throw (e : Error).
Arguments Ok {A} a.
Arguments Throw {A} e.

Record IconView := { icon_name : string; icon_size : Z; icon_color : Color }.

Record SpinnerView := { spinner_color : Color; spinner_size : Z }.

(** ** [getIconSize] and [getTextSize] *)

(** The runtime function compares its argument with three string
    literals and throws when none matches. *)
Definition getIconSize (size : string) : Exc Z :=
  if String.eqb size "Large" then Ok 25%Z
  else if String.eqb size "Medium" then Ok 20%Z
  else if String.eqb size "Small" then Ok 20%Z
  else Throw "unknown size".

(** Falls off the end, returning [undefined], when none matches. *)
Definition getTextSize (size : string) : option string :=
  if String.eqb size "Large" then Some "2xl"
  else if String.eqb size "Medium" then Some "xl"
  else if String.eqb size "Small" then Some "lg"
  else None.

Section Runtime.

Set Default Proof Using "Type".

(** [EventKey], from [deps.ts], is opaque here: all the components do with
    a key is test it for truthiness and hand it to the dispatcher, which
    compares identifiers. *)
Context {EventKey : Type} `{Countable EventKey}.
Variable truthy : EventKey → bool.

(** [getColor], from [utils.ts]: a pure lookup, with an optional offset. *)
Variable getColor : Color → option Z → string.

(** What [useDispatcher] hands to a component; the [dispatch] function it
    returns is bound to the key the hook was called with. *)
Record DispatcherQuery := { isLoading : bool; isDisabled : bool }.

(** The calls a handler makes to its collaborators. [Consume] is an
    ancestor's listener reading the bubble marker. *)
Inductive Call :=
| ConsoleError (msg : string)
| DoBubble (el : Element) (ev : ClickEvent)
| Dispatch (key : option EventKey) (payload : Payload)
| Consume (el : Element) (ev : ClickEvent).

Definition Handler := ClickEvent → list Call.

(** ** Button *)

Record Button := {
  event : option EventKey;
  color : option Color;
  full : option bool;
  label : string;
  leadingIcon : option string;
  outline : option bool;
  size : option ButtonSize;
  trailingIcon : option string
}.

(** [Button::new(label)]: every optional field absent. *)
Definition Button_new (label : string) : Button :=
  {| event := None; color := None; full := None; label := label;
     leadingIcon := None; outline := None; size := None; trailingIcon := None |}.

Definition set_event (e : option EventKey) (p : Button) : Button :=
  {| event := e; color := color p; full := full p; label := label p;
     leadingIcon := leadingIcon p; outline := outline p; size := size p;
     trailingIcon := trailingIcon p |}.

Definition set_color (c : option Color) (p : Button) : Button :=
  {| event := event p; color := c; full := full p; label := label p;
     leadingIcon := leadingIcon p; outline := outline p; size := size p;
     trailingIcon := trailingIcon p |}.

Definition set_size (s : option ButtonSize) (p : Button) : Button :=
  {| event := event p; color := color p; full := full p; label := label p;
     leadingIcon := leadingIcon p; outline := outline p; size := s;
     trailingIcon := trailingIcon p |}.

(** The rendered button, attribute by attribute. *)
Record ButtonView := {
  btn_px : Z;
  btn_py : Z;
  btn_backgroundStyles : string;
  btn_borderStyles : string;
  btn_ring : string;
  btn_textColor : string;
  btn_wFull : bool;
  btn_dimmed : bool;
  btn_disabled : bool;
  btn_onClick : Handler;
  btn_gap : Z;
  btn_contentHidden : bool;
  btn_leadingIcon : option IconView;
  btn_labelClass : string;
  btn_label : string;
  btn_trailingIcon : option IconView;
  btn_spinner : option SpinnerView
}.

Definition primary100 : Color := {| type := "Primary"; def := 100 |}.

(** [size === 'Large' ? 1 : size === 'Small' ? 0.6 : 0.8] *)
Definition scale_of (size : ButtonSize) : Q :=
  match size with
  | Large => 1
  | Small => 6 # 10
  | Medium => 8 # 10
  end.

Definition is_truthy_key (e : option EventKey) : bool :=
  match e with
  | Some k => truthy k
  | None => false
  end.

(** The [onClick] of the button. *)
Definition Button_onClick (props : Button) : Handler :=
  fun ev =>
    if negb (is_truthy_key (event props))
    then [ConsoleError "button was clicked while disabled"]
    else [DoBubble (currentTarget ev) ev; Dispatch (nullish (event props)) PNull].

Definition icon_of (name : option string) (scale : Q) (c : Color) : option IconView :=
  match name with
  | Some n =>
      if truthy_string n
      then Some {| icon_name := n; icon_size := Math_round (scale * 18); icon_color := c |}
      else None
  | None => None
  end.

Definition ButtonRender (useDispatcher : option EventKey → DispatcherQuery)
    (props : Button) : ButtonView :=
  let color := js_or (color props) primary100 in
  let size := js_or (size props) Medium in
  let q := useDispatcher (nullish (event props)) in
  let isLoading := isLoading q in
  let isActionDisabled := isDisabled q in
  let scale := scale_of size in
  let isDisabled := isActionDisabled || isLoading in
  let innerColor :=
    if truthy_flag (outline props) then color
    else if String.eqb (type color) "Base" || String.eqb (type color) "Fore"
         then {| type := "Fore"; def := 100 |}
         else {| type := "DecorationFore"; def := 100 |} in
  let textColor := "text-" +:+ getColor innerColor (Some 100%Z) in
  let backgroundStyles :=
    if truthy_flag (outline props)
    then "bg-transparent " +:+ (if negb isDisabled then "hover:bg-fore-10" else "")
    else "bg-" +:+ getColor color None +:+ " "
         +:+ (if negb isDisabled then "hover:bg-" +:+ getColor color (Some (-10)%Z) else "")
         +:+ " transition-colors" in
  let borderStyles :=
    if truthy_flag (outline props)
    then "border border-" +:+ getColor color None
    else "" in
  {| btn_px := Math_round (scale * 14);
     btn_py := Math_round (scale * 8);
     btn_backgroundStyles := backgroundStyles;
     btn_borderStyles := borderStyles;
     btn_ring := "ring-" +:+ getColor color (Some 40%Z);
     btn_textColor := textColor;
     btn_wFull := truthy_flag (full props);
     btn_dimmed := isDisabled;
     btn_disabled := isDisabled;
     btn_onClick := Button_onClick props;
     btn_gap := Math_round (scale * 8);
     btn_contentHidden := isLoading;
     btn_leadingIcon := icon_of (leadingIcon props) scale innerColor;
     btn_labelClass :=
       (match size with Large => "text-lg" | _ => "" end) +:+ " "
       +:+ (match size with Small => "text-sm" | _ => "" end);
     btn_label := label props;
     btn_trailingIcon := icon_of (trailingIcon props) scale innerColor;
     btn_spinner :=
       if isLoading
       then Some {| spinner_color := innerColor;
                    spinner_size := match size with
                                    | Large => 30
                                    | Medium => 25
                                    | Small => 20
                                    end |}
       else None |}.

(** ** Crumb *)

Record CrumbProps := { crumb_event : EventKey; crumb_text : string }.

Record CrumbView := {
  crumb_disabled : bool;
  crumb_class : string;
  crumb_onClick : Handler;
  crumb_label : string;
  crumb_loader : bool
}.

(** [onClick={() => dispatch(null)}]: the handler takes no event. *)
Definition Crumb_onClick (props : CrumbProps) : Handler :=
  fun _ => [Dispatch (Some (crumb_event props)) PNull].

Definition Crumb (useDispatcher : option EventKey → DispatcherQuery)
    (props : CrumbProps) : CrumbView :=
  let q := useDispatcher (Some (crumb_event props)) in
  {| crumb_disabled := isLoading q || isDisabled q;
     crumb_class :=
       "relative transition-opacity "
       +:+ (if isLoading q then "opacity-80 cursor-not-allowed"
            else "cursor-pointer hover:opacity-80");
     crumb_onClick := Crumb_onClick props;
     crumb_label := crumb_text props;
     crumb_loader := isLoading q |}.

(** ** Header *)

Record HeaderActionItem := {
  item_event : EventKey;
  item_icon : string;
  item_label : string
}.

Record Header := {
  title : string;
  eventItems : option (list HeaderActionItem);
  header_size : option HeaderSize
}.

(** The props [HeaderRender] passes to [IconButtonRender]. *)
Record IconButtonProps := {
  ib_name : string;
  ib_size : Z;
  ib_event : EventKey;
  ib_title : string
}.

Record HeaderView := {
  header_textSize : option string;
  header_title : string;
  header_items : list IconButtonProps
}.

(** [eventItems.map(...)]: the first [getIconSize] that throws ends the
    render. *)
Fixpoint render_items (size : string) (items : list HeaderActionItem)
  : Exc (list IconButtonProps) :=
  match items with
  | [] => Ok []
  | item :: rest =>
      match getIconSize size with
      | Throw e => Throw e
      | Ok n =>
          match render_items size rest with
          | Throw e => Throw e
          | Ok views =>
              Ok ({| ib_name := item_icon item; ib_size := n;
                     ib_event := item_event item;
                     ib_title := item_label item |} :: views)
          end
      end
  end.

Definition HeaderRender (props : Header) : Exc HeaderView :=
  let eventItems := js_or (eventItems props) [] in
  let size := HeaderSize_tag (js_or (header_size props) HMedium) in
  match render_items size eventItems with
  | Throw e => Throw e
  | Ok items =>
      Ok {| header_textSize := getTextSize size;
            header_title := title props;
            header_items := items |}
  end.

(** ** The action dispatcher *)

(** Modelled from the spec: the dispatcher of [event.tsx] ([useDispatcher]
    and the [dispatch] function it returns), which is imported by the
    components but is not among the sources.  One Dispatch State per key
    identifier, a log of the calls made on the engine's submission channel,
    and a log of the outcomes the engine has delivered. *)
Inductive Status := Idle | InFlight.

Inductive Outcome := Success | Failure (e : Error).

Inductive Diagnostic :=
| DuplicateDispatchIgnored (k : EventKey)
| EngineFailure (k : EventKey) (e : Error)
| MisuseError.

Definition Subscriber := nat.

(** Modelled from the spec: the Dispatch State.  The set of subscriber
    callbacks is the domain of [subscribers]; the value kept with a
    subscriber is the loading flag its callback last delivered to it. *)
Record DispatchState := {
  status : Status;
  lastError : option Error;
  subscribers : gmap Subscriber bool
}.

Definition idle_state : DispatchState :=
  {| status := Idle; lastError := None; subscribers := ∅ |}.

Record Dispatcher := {
  registry : gmap EventKey DispatchState;
  submitted : list (EventKey * Payload);
  settled : list (EventKey * Outcome);
  errorChannel : list (EventKey * Error);
  diagnostics : list Diagnostic
}.

Definition empty_dispatcher : Dispatcher :=
  {| registry := ∅; submitted := []; settled := []; errorChannel := [];
     diagnostics := [] |}.

Definition state_of (k : EventKey) (d : Dispatcher) : DispatchState :=
  default idle_state (registry d !! k).

Definition in_flight (k : EventKey) (d : Dispatcher) : bool :=
  match status (state_of k d) with
  | InFlight => true
  | Idle => false
  end.

Definition put_state (k : EventKey) (st : DispatchState) (d : Dispatcher)
  : Dispatcher :=
  {| registry := <[k := st]> (registry d); submitted := submitted d;
     settled := settled d; errorChannel := errorChannel d;
     diagnostics := diagnostics d |}.

Definition drop_state (k : EventKey) (d : Dispatcher) : Dispatcher :=
  {| registry := delete k (registry d); submitted := submitted d;
     settled := settled d; errorChannel := errorChannel d;
     diagnostics := diagnostics d |}.

Definition log_diagnostic (g : Diagnostic) (d : Dispatcher) : Dispatcher :=
  {| registry := registry d; submitted := submitted d; settled := settled d;
     errorChannel := errorChannel d; diagnostics := diagnostics d ++ [g] |}.

(** [submit(actionIdentifier, payload)] on the engine's channel. *)
Definition submit (k : EventKey) (p : Payload) (d : Dispatcher) : Dispatcher :=
  {| registry := registry d; submitted := submitted d ++ [(k, p)];
     settled := settled d; errorChannel := errorChannel d;
     diagnostics := diagnostics d |}.

Definition record_outcome (k : EventKey) (o : Outcome) (d : Dispatcher)
  : Dispatcher :=
  {| registry := registry d; submitted := submitted d;
     settled := settled d ++ [(k, o)];
     errorChannel :=
       match o with
       | Success => errorChannel d
       | Failure e => errorChannel d ++ [(k, e)]
       end;
     diagnostics :=
       match o with
       | Success => diagnostics d
       | Failure e => diagnostics d ++ [EngineFailure k e]
       end |}.

(** How many entries of a log belong to key [k]. *)
Definition count_key {A : Type} (k : EventKey) (l : list (EventKey * A)) : nat :=
  length (filter (λ x, x.1 = k) l).

(** Engine calls for [k] that were submitted and have not resolved yet. *)
Definition outstanding (k : EventKey) (d : Dispatcher) : nat :=
  count_key k (submitted d) - count_key k (settled d).

(** Modelled from the spec: the Query of section 4.1. *)
Definition useDispatcher (d : Dispatcher) (key : option EventKey)
  : DispatcherQuery :=
  match key with
  | None => {| isLoading := false; isDisabled := true |}
  | Some k => {| isLoading := in_flight k d; isDisabled := false |}
  end.

(** Every current subscriber's callback is invoked with the new flag. *)
Definition notify (loading : bool) (subs : gmap Subscriber bool)
  : gmap Subscriber bool :=
  (λ _, loading) <$> subs.

(** Modelled from the spec: Dispatch(payload) up to its suspension point.
    With no key bound it is a misuse, reported and otherwise a no-op; while
    the key is in flight the call is dropped; otherwise the state becomes
    [InFlight], the subscribers are notified, and the pair goes to the
    engine. *)
Definition dispatch (key : option EventKey) (p : Payload) (d : Dispatcher)
  : Dispatcher * Completion :=
  match key with
  | None => (log_diagnostic MisuseError d, Returned)
  | Some k =>
      let st := state_of k d in
      match status st with
      | InFlight => (log_diagnostic (DuplicateDispatchIgnored k) d, Returned)
      | Idle =>
          (submit k p
             (put_state k {| status := InFlight; lastError := lastError st;
                             subscribers := notify true (subscribers st) |} d),
           Returned)
      end
  end.

(** Modelled from the spec: the continuation of Dispatch once the engine
    resolves.  The engine resolves only calls it has received. *)
Definition settle (k : EventKey) (o : Outcome) (d : Dispatcher)
  : Dispatcher * Completion :=
  if decide (count_key k (settled d) < count_key k (submitted d))
  then
    let st := state_of k d in
    (record_outcome k o
       (put_state k {| status := Idle;
                       lastError := match o with
                                    | Success => None
                                    | Failure e => Some e
                                    end;
                       subscribers := notify false (subscribers st) |} d),
     Returned)
  else (d, Returned).

(** Modelled from the spec: a component binds to a key when it mounts; its
    first render reads the current loading state. *)
Definition mount (k : EventKey) (s : Subscriber) (d : Dispatcher) : Dispatcher :=
  let st := state_of k d in
  put_state k {| status := status st; lastError := lastError st;
                 subscribers := <[s := in_flight k d]> (subscribers st) |} d.

(** Modelled from the spec: unbinding; the state of an idle key is
    collected with its last subscriber, the state of a key in flight
    persists until the call completes. *)
Definition unmount (k : EventKey) (s : Subscriber) (d : Dispatcher) : Dispatcher :=
  let st := state_of k d in
  let subs := delete s (subscribers st) in
  let kept := put_state k {| status := status st; lastError := lastError st;
                             subscribers := subs |} d in
  match status st with
  | Idle => if decide (subs = ∅) then drop_state k d else kept
  | InFlight => kept
  end.

(** What happens to a dispatcher: components mount and unmount, handlers
    call [dispatch], the engine resolves. *)
Inductive Input :=
| IMount (k : EventKey) (s : Subscriber)
| IUnmount (k : EventKey) (s : Subscriber)
| IDispatch (key : option EventKey) (p : Payload)
| ISettle (k : EventKey) (o : Outcome).

Definition step (d : Dispatcher) (i : Input) : Dispatcher :=
  match i with
  | IMount k s => mount k s d
  | IUnmount k s => unmount k s d
  | IDispatch key p => fst (dispatch key p d)
  | ISettle k o => fst (settle k o d)
  end.

Definition run (inputs : list Input) (d : Dispatcher) : Dispatcher :=
  foldl step d inputs.

(** Is [i] the engine resolving a call for [k]? *)
Definition settles (k : EventKey) (i : Input) : bool :=
  match i with
  | ISettle k' _ => bool_decide (k' = k)
  | _ => false
  end.

(** What subscriber [s] of key [k] last saw. *)
Definition observed (k : EventKey) (s : Subscriber) (d : Dispatcher)
  : option bool :=
  subscribers (state_of k d) !! s.

(** ** The bubble marker *)

(** Modelled from the spec: the Bubble Marker of [bubble.ts], which is not
    among the sources.  A marker belongs to one event instance and carries
    the element it was set at and the event. *)
Record Marker := { marker_target : Element; marker_event : ClickEvent }.

Record Page := {
  markers : gmap nat Marker;
  attached : list (nat * Element);
  ripples : list (Element * option Marker);
  console : list string
}.

Definition empty_page : Page :=
  {| markers := ∅; attached := []; ripples := []; console := [] |}.

(** Modelled from the spec: Mark.  The marker of an event is set once;
    an event that already carries one keeps it. *)
Definition doBubble (el : Element) (ev : ClickEvent) (pg : Page) : Page :=
  match markers pg !! event_id ev with
  | Some _ => pg
  | None =>
      {| markers := <[event_id ev := {| marker_target := el; marker_event := ev |}]>
                      (markers pg);
         attached := attached pg ++ [(event_id ev, el)];
         ripples := ripples pg;
         console := console pg |}
  end.

(** Modelled from the spec: Consume.  The ancestor reads the marker, if
    any, and reacts; the event is left as it was. *)
Definition consume (el : Element) (ev : ClickEvent) (pg : Page) : Page :=
  {| markers := markers pg; attached := attached pg;
     ripples := ripples pg ++ [(el, markers pg !! event_id ev)];
     console := console pg |}.

Definition console_error (msg : string) (pg : Page) : Page :=
  {| markers := markers pg; attached := attached pg; ripples := ripples pg;
     console := console pg ++ [msg] |}.

(** How often a marker was attached to event [eid]. *)
Definition times_attached (eid : nat) (pg : Page) : nat :=
  length (filter (λ x, x.1 = eid) (attached pg)).

(** ** Running handlers *)

Record World := { dispatcher : Dispatcher; page : Page }.

Definition empty_world : World :=
  {| dispatcher := empty_dispatcher; page := empty_page |}.

Definition exec (c : Call) (w : World) : World * Completion :=
  match c with
  | ConsoleError msg =>
      ({| dispatcher := dispatcher w; page := console_error msg (page w) |},
       Returned)
  | DoBubble el ev =>
      ({| dispatcher := dispatcher w; page := doBubble el ev (page w) |}, Returned)
  | Consume el ev =>
      ({| dispatcher := dispatcher w; page := consume el ev (page w) |}, Returned)
  | Dispatch key p =>
      let (d, c) := dispatch key p (dispatcher w) in
      ({| dispatcher := d; page := page w |}, c)
  end.

(** A handler body: the calls in order, ended by the first that throws. *)
Fixpoint run_calls (calls : list Call) (w : World) : World * Completion :=
  match calls with
  | [] => (w, Returned)
  | c :: rest =>
      match exec c w with
      | (w', Returned) => run_calls rest w'
      | (w', Threw e) => (w', Threw e)
      end
  end.

(** The listeners a click can meet on its way up. *)
Inductive Listener :=
| ButtonListener (props : Button)
| CrumbListener (props : CrumbProps)
| AncestorListener.

Definition handler_of (l : Listener) : Handler :=
  match l with
  | ButtonListener props => Button_onClick props
  | CrumbListener props => Crumb_onClick props
  | AncestorListener => fun ev => [Consume (currentTarget ev) ev]
  end.

(** One click, delivered to the listeners of [chain] from the target
    outwards; every listener gets the same event instance. *)
Fixpoint propagate (chain : list (Element * Listener)) (eid : nat) (w : World)
  : World :=
  match chain with
  | [] => w
  | (el, l) :: outer =>
      let ev := {| event_id := eid; currentTarget := el |} in
      propagate outer eid (fst (run_calls (handler_of l ev) w))
  end.

(** Does a handler's trace mark event [ev] before its first [dispatch]? *)
Fixpoint marks_before_dispatch (ev : ClickEvent) (marked : bool)
    (calls : list Call) : bool :=
  match calls with
  | [] => false
  | DoBubble _ ev' :: rest =>
      marks_before_dispatch ev (marked || same_event ev ev') rest
  | Dispatch _ _ :: _ => marked
  | _ :: rest => marks_before_dispatch ev marked rest
  end.

(** The bookkeeping a dispatcher keeps true: per key, exactly the calls
    accounted for by [InFlight] are outstanding, and every subscriber has
    been told the current loading state. *)
Definition consistent (d : Dispatcher) : Prop :=
  ∀ k,
    count_key k (submitted d)
      = count_key k (settled d) + (if in_flight k d then 1 else 0)
    ∧ ∀ s b, observed k s d = Some b → b = in_flight k d.

(** [s] is currently bound to key [k]. *)
Definition subscribed (k : EventKey) (s : Subscriber) (d : Dispatcher) : Prop :=
  is_Some (observed k s d).

(** No input of the list is the engine resolving a call for [k]. *)
Definition unsettled (k : EventKey) (inputs : list Input) : bool :=
  forallb (λ i, negb (settles k i)) inputs.

(** The elements of a chain whose listener only reads the marker. *)
Fixpoint consumers (chain : list (Element * Listener)) : list Element :=
  match chain with
  | [] => []
  | (el, AncestorListener) :: outer => el :: consumers outer
  | _ :: outer => consumers outer
  end.

(** The marker of event [eid] and the log of attachments agree. *)
Definition marker_ok (eid : nat) (pg : Page) : Prop :=
  match markers pg !! eid with
  | None => times_attached eid pg = 0
  | Some _ => times_attached eid pg = 1
  end.

(** What a listener's handler does to the page; [dispatch] only touches
    the dispatcher ([page_run_listener] below). *)
Definition listener_effect (l : Listener) (ev : ClickEvent) (pg : Page) : Page :=
  match l with
  | ButtonListener props =>
      if is_truthy_key (event props)
      then doBubble (currentTarget ev) ev pg
      else console_error "button was clicked while disabled" pg
  | CrumbListener _ => pg
  | AncestorListener => consume (currentTarget ev) ev pg
  end.

Fixpoint page_after (chain : list (Element * Listener)) (eid : nat) (pg : Page)
  : Page :=
  match chain with
  | [] => pg
  | (el, l) :: outer =>
      page_after outer eid
        (listener_effect l {| event_id := eid; currentTarget := el |} pg)
  end.

(** ** The rest of the components *)

(** [Component] and [ComponentRender], from [component.tsx]: a child
    description and the node it renders to. *)
Context {Component Node : Type}.
Variable ComponentRender : Component → Node.

Definition set_outline (o : option bool) (p : Button) : Button :=
  {| event := event p; color := color p; full := full p; label := label p;
     leadingIcon := leadingIcon p; outline := o; size := size p;
     trailingIcon := trailingIcon p |}.

Definition set_full (f : option bool) (p : Button) : Button :=
  {| event := event p; color := color p; full := f; label := label p;
     leadingIcon := leadingIcon p; outline := outline p; size := size p;
     trailingIcon := trailingIcon p |}.

Definition set_leadingIcon (i : option string) (p : Button) : Button :=
  {| event := event p; color := color p; full := full p; label := label p;
     leadingIcon := i; outline := outline p; size := size p;
     trailingIcon := trailingIcon p |}.

Definition set_trailingIcon (i : option string) (p : Button) : Button :=
  {| event := event p; color := color p; full := full p; label := label p;
     leadingIcon := leadingIcon p; outline := outline p; size := size p;
     trailingIcon := i |}.

(** The props the header and the center layout pass to [LabelRender]. *)
Record LabelProps := {
  lbl_color : Color;
  lbl_bold : bool;
  lbl_italic : bool;
  lbl_text : string;
  lbl_editEvent : option EventKey;
  lbl_placeholder : option string
}.

(** *** Breadcrumbs *)

(** The props the breadcrumbs pass to [LabelRender]: there the color is
    written [{ kind, opacity }] and the flags [isBold], [isItalic]. *)
Record TrailLabel := {
  tl_kind : string;
  tl_opacity : Z;
  tl_isBold : bool;
  tl_isItalic : bool;
  tl_text : string
}.

Record Breadcrumbs := {
  body : option Component;
  crumbs : list CrumbProps;
  current : option string
}.

(** What the row of the breadcrumbs holds: a crumb's button, the
    [mdi-chevron-right] icon (size 20, Fore at opacity 10) that ends every
    crumb's fragment, and the label of the current page. *)
Inductive TrailNode :=
| TrailCrumb (v : CrumbView)
| TrailChevron
| TrailCurrent (l : TrailLabel).

Record BreadcrumbsView := {
  trail : list TrailNode;
  trail_body : option Node
}.

(** The fragment [Crumb] returns: the button, then the chevron. *)
Definition Crumb_fragment (useDispatcher : option EventKey → DispatcherQuery)
    (props : CrumbProps) : list TrailNode :=
  [TrailCrumb (Crumb useDispatcher props); TrailChevron].

Definition BreadcrumbsRender (useDispatcher : option EventKey → DispatcherQuery)
    (props : Breadcrumbs) : BreadcrumbsView :=
  {| trail :=
       flat_map (Crumb_fragment useDispatcher) (crumbs props)
       ++ match current props with
          | Some text =>
              if truthy_string text
              then [TrailCurrent {| tl_kind := "Fore"; tl_opacity := 50;
                                    tl_isBold := true; tl_isItalic := false;
                                    tl_text := text |}]
              else []
          | None => []
          end;
     trail_body := ComponentRender <$> body props |}.

(** The crumb buttons of a row, in order. *)
Fixpoint trail_crumbs (nodes : list TrailNode) : list CrumbView :=
  match nodes with
  | [] => []
  | TrailCrumb v :: rest => v :: trail_crumbs rest
  | _ :: rest => trail_crumbs rest
  end.

(** *** Header, with its subtitle and edit events *)

Record HeaderProps := {
  hp_title : string;
  hp_eventItems : option (list HeaderActionItem);
  hp_size : option HeaderSize;
  hp_subtitle : option string;
  hp_subtitleEditEvent : option EventKey;
  hp_subtitlePlaceholder : option string;
  hp_titleEditEvent : option EventKey;
  hp_titlePlaceholder : option string
}.

(** The fields [HeaderRender] above reads. *)
Definition Header_of (props : HeaderProps) : Header :=
  {| title := hp_title props; eventItems := hp_eventItems props;
     header_size := hp_size props |}.

Definition set_subtitle_editing (e : option EventKey) (placeholder : option string)
    (props : HeaderProps) : HeaderProps :=
  {| hp_title := hp_title props; hp_eventItems := hp_eventItems props;
     hp_size := hp_size props; hp_subtitle := hp_subtitle props;
     hp_subtitleEditEvent := e; hp_subtitlePlaceholder := placeholder;
     hp_titleEditEvent := hp_titleEditEvent props;
     hp_titlePlaceholder := hp_titlePlaceholder props |}.

Record HeaderFullView := {
  hv_textSize : option string;
  hv_title : LabelProps;
  hv_items : list (Color * IconButtonProps);
  hv_subtitle : option LabelProps
}.

(** [HeaderRender] with every prop: the title label always, one icon
    button (color Primary, def 100) per event item, and the subtitle under
    [props.subtitle && ...]. *)
Definition HeaderRender_full (props : HeaderProps) : Exc HeaderFullView :=
  let eventItems := js_or (hp_eventItems props) [] in
  let size := HeaderSize_tag (js_or (hp_size props) HMedium) in
  match render_items size eventItems with
  | Throw e => Throw e
  | Ok items =>
      Ok {| hv_textSize := getTextSize size;
            hv_title :=
              {| lbl_color := {| type := "Fore"; def := 90 |};
                 lbl_bold := true; lbl_italic := false;
                 lbl_text := hp_title props;
                 lbl_editEvent := hp_titleEditEvent props;
                 lbl_placeholder := hp_titlePlaceholder props |};
            hv_items := map (pair primary100) items;
            hv_subtitle :=
              match hp_subtitle props with
              | Some text =>
                  if truthy_string text
                  then Some {| lbl_color := {| type := "Fore"; def := 30 |};
                               lbl_bold := false; lbl_italic := false;
                               lbl_text := text;
                               lbl_editEvent := hp_subtitleEditEvent props;
                               lbl_placeholder := hp_subtitlePlaceholder props |}
                  else None
              | None => None
              end |}
  end.

(** The icon button [HeaderRender] makes of an event item. *)
Definition item_button (size : Z) (item : HeaderActionItem) : IconButtonProps :=
  {| ib_name := item_icon item; ib_size := size; ib_event := item_event item;
     ib_title := item_label item |}.

(** *** Center and CenterLayout *)

Record Center := { center_body : option Component }.

Record CenterView := { cv_body : option Node }.

Definition CenterRender (props : Center) : CenterView :=
  {| cv_body := ComponentRender <$> center_body props |}.

Record CenterLayout := {
  cl_title : string;
  cl_body : option Component;
  cl_subtitle : option string;
  cl_thin : option bool
}.

Record CenterLayoutView := {
  clv_maxWidth : string;
  clv_title : LabelProps;
  clv_subtitle : option string;
  clv_body : option Node
}.

Definition CenterLayoutRender (props : CenterLayout) : CenterLayoutView :=
  {| clv_maxWidth := if truthy_flag (cl_thin props) then "max-w-sm" else "max-w-xl";
     clv_title :=
       {| lbl_color := {| type := "Fore"; def := 80 |};
          lbl_bold := true; lbl_italic := false; lbl_text := cl_title props;
          lbl_editEvent := None; lbl_placeholder := None |};
     clv_subtitle :=
       match cl_subtitle props with
       | Some text => if truthy_string text then Some text else None
       | None => None
       end;
     clv_body := ComponentRender <$> cl_body props |}.

(** * Properties *)

(** ** The components *)

Lemma getIconSize_tag (s : HeaderSize) :
  getIconSize (HeaderSize_tag s)
  = Ok (match s with HLarge => 25 | HMedium => 20 | HSmall => 20 end)%Z.
Proof. destruct s; reflexivity. Qed.

Lemma render_items_ok (s : HeaderSize) (items : list HeaderActionItem) :
  ∃ views, render_items (HeaderSize_tag s) items = Ok views
           ∧ length views = length items.
Proof.
  induction items as [|item rest IH]; simpl.
  - exists []. split; reflexivity.
  - rewrite getIconSize_tag. destruct IH as (views & -> & Hlen).
    eexists. split; [reflexivity|]. simpl. by rewrite Hlen.
Qed.

(** C10: on each of the three values of [HeaderSize], [getIconSize]
    returns (25 for Large, 20 for Medium and for Small) and does not
    throw; hence [HeaderRender] renders every header without throwing. *)
Theorem getIconSize_never_throws :
  (∀ s : HeaderSize,
     getIconSize (HeaderSize_tag s)
     = Ok (match s with HLarge => 25 | HMedium => 20 | HSmall => 20 end)%Z)
  ∧ (∀ s : HeaderSize, getIconSize (HeaderSize_tag s) ≠ Throw "unknown size")
  ∧ (∀ props : Header, ∃ view, HeaderRender props = Ok view).
Proof.
  split; [exact getIconSize_tag|]. split.
  - intros s. rewrite getIconSize_tag. discriminate.
  - intros props. unfold HeaderRender.
    destruct (render_items_ok (js_or (header_size props) HMedium)
                (js_or (eventItems props) [])) as (views & -> & _).
    eexists. reflexivity.
Qed.

(** C9: a button without a [color] renders as one with color Primary,
    def 100; a button without a [size] renders as a Medium one; and the
    scale behind the paddings, the gap and the icon sizes is 1 for Large,
    0.8 for Medium and 0.6 for Small. *)
Theorem ButtonRender_defaults
    (q : option EventKey → DispatcherQuery) (props : Button) :
  ButtonRender q (set_color None props)
  = ButtonRender q (set_color (Some {| type := "Primary"; def := 100 |}) props)
  ∧ ButtonRender q (set_size None props)
    = ButtonRender q (set_size (Some Medium) props)
  ∧ (scale_of Large = 1%Q ∧ scale_of Medium = (8 # 10)%Q
     ∧ scale_of Small = (6 # 10)%Q)
  ∧ (let scale := scale_of (default Medium (size props)) in
     btn_px (ButtonRender q props) = Math_round (scale * 14)%Q
     ∧ btn_py (ButtonRender q props) = Math_round (scale * 8)%Q
     ∧ btn_gap (ButtonRender q props) = Math_round (scale * 8)%Q).
Proof. repeat split; reflexivity. Qed.

Lemma Button_disabled (q : option EventKey → DispatcherQuery) (props : Button) :
  btn_disabled (ButtonRender q props)
  = isDisabled (q (nullish (event props))) || isLoading (q (nullish (event props))).
Proof. reflexivity. Qed.

Lemma Crumb_disabled (q : option EventKey → DispatcherQuery) (props : CrumbProps) :
  crumb_disabled (Crumb q props)
  = isLoading (q (Some (crumb_event props))) || isDisabled (q (Some (crumb_event props))).
Proof. reflexivity. Qed.

(** C7: a click that reaches the button's handler while no key is bound
    makes one call, [console.error]; [dispatch] and the submission channel
    are not touched, nothing is thrown, and the dispatcher is as before. *)
Theorem unbound_click_is_reported
    (q : option EventKey → DispatcherQuery) (props : Button)
    (ev : ClickEvent) (w : World) :
  event props = None →
  btn_onClick (ButtonRender q props) ev
  = [ConsoleError "button was clicked while disabled"]
  ∧ run_calls (btn_onClick (ButtonRender q props) ev) w
    = ({| dispatcher := dispatcher w;
          page := console_error "button was clicked while disabled" (page w) |},
       Returned)
  ∧ submitted (dispatcher (run_calls (btn_onClick (ButtonRender q props) ev) w).1)
    = submitted (dispatcher w).
Proof.
  intros Hnone. cbn [btn_onClick ButtonRender]. unfold Button_onClick.
  rewrite Hnone. repeat split.
Qed.

(** C6, as the code has it: with a bound, truthy key the button's handler
    calls [doBubble] on the event it was given and then [dispatch(null)],
    in one invocation; the crumb's handler calls [dispatch(null)] and
    does not mark the event. *)
Theorem click_marks_then_dispatches
    (q : option EventKey → DispatcherQuery) (props : Button)
    (crumb : CrumbProps) (k : EventKey) (ev : ClickEvent) (w : World) :
  event props = Some k →
  truthy k = true →
  btn_onClick (ButtonRender q props) ev
  = [DoBubble (currentTarget ev) ev; Dispatch (Some k) PNull]
  ∧ marks_before_dispatch ev false (btn_onClick (ButtonRender q props) ev) = true
  ∧ (run_calls (btn_onClick (ButtonRender q props) ev) w).1
    = {| dispatcher := (dispatch (Some k) PNull (dispatcher w)).1;
         page := doBubble (currentTarget ev) ev (page w) |}
  ∧ crumb_onClick (Crumb q crumb) ev = [Dispatch (Some (crumb_event crumb)) PNull].
Proof.
  intros Hkey Htruthy. cbn [btn_onClick ButtonRender crumb_onClick Crumb].
  unfold Button_onClick, Crumb_onClick, nullish. rewrite Hkey. simpl.
  rewrite Htruthy. simpl. unfold same_event. rewrite Nat.eqb_refl.
  repeat split.
  destruct (status (state_of k (dispatcher w))); reflexivity.
Qed.

(** ** The dispatcher *)

Lemma state_of_put (k k' : EventKey) (st : DispatchState) (d : Dispatcher) :
  state_of k (put_state k' st d) = if decide (k' = k) then st else state_of k d.
Proof.
  unfold state_of, put_state. simpl. rewrite lookup_insert.
  destruct (decide (k' = k)); reflexivity.
Qed.

Lemma state_of_drop (k k' : EventKey) (d : Dispatcher) :
  state_of k (drop_state k' d)
  = if decide (k' = k) then idle_state else state_of k d.
Proof.
  unfold state_of, drop_state. simpl. rewrite lookup_delete.
  destruct (decide (k' = k)); reflexivity.
Qed.

Lemma count_key_snoc {A : Type} (k k' : EventKey) (x : A)
    (l : list (EventKey * A)) :
  count_key k (l ++ [(k', x)])
  = count_key k l + (if decide (k' = k) then 1 else 0).
Proof.
  unfold count_key. rewrite filter_app, length_app. f_equal.
  destruct (decide (k' = k)) as [->|Hne].
  - rewrite filter_cons_True by reflexivity. reflexivity.
  - rewrite filter_cons_False by (simpl; congruence). reflexivity.
Qed.

Lemma observed_notify (b : bool) (subs : gmap Subscriber bool) (s : Subscriber)
    (x : bool) :
  notify b subs !! s = Some x → x = b.
Proof.
  unfold notify. rewrite lookup_fmap.
  destruct (subs !! s); simpl; congruence.
Qed.

Lemma notify_subscribed (b : bool) (subs : gmap Subscriber bool) (s : Subscriber) :
  is_Some (subs !! s) → notify b subs !! s = Some b.
Proof.
  intros [x Hx]. unfold notify. rewrite lookup_fmap, Hx. reflexivity.
Qed.

Lemma consistent_empty : consistent empty_dispatcher.
Proof.
  intros k. split; [reflexivity|].
  intros s b. unfold observed, state_of. simpl.
  rewrite lookup_empty. simpl. rewrite lookup_empty. discriminate.
Qed.

Lemma in_flight_put (k k' : EventKey) (st : DispatchState) (d : Dispatcher) :
  in_flight k (put_state k' st d)
  = if decide (k' = k)
    then match status st with InFlight => true | Idle => false end
    else in_flight k d.
Proof.
  unfold in_flight. rewrite state_of_put.
  destruct (decide (k' = k)); reflexivity.
Qed.

Lemma observed_put (k k' : EventKey) (s : Subscriber) (st : DispatchState)
    (d : Dispatcher) :
  observed k s (put_state k' st d)
  = if decide (k' = k) then subscribers st !! s else observed k s d.
Proof.
  unfold observed. rewrite state_of_put.
  destruct (decide (k' = k)); reflexivity.
Qed.

Lemma in_flight_status (k : EventKey) (d : Dispatcher) :
  in_flight k d = true ↔ status (state_of k d) = InFlight.
Proof.
  unfold in_flight. destruct (status (state_of k d)); split; congruence.
Qed.

Lemma consistent_mount (k : EventKey) (s : Subscriber) (d : Dispatcher) :
  consistent d → consistent (mount k s d).
Proof.
  intros Hc k'. destruct (Hc k') as [Hcount Hobs]. unfold mount.
  rewrite in_flight_put. split.
  - simpl. destruct (decide (k = k')) as [->|]; [|exact Hcount].
    rewrite Hcount. unfold in_flight. reflexivity.
  - intros s' b. rewrite observed_put.
    destruct (decide (k = k')) as [->|]; [|apply Hobs]. simpl.
    rewrite lookup_insert. destruct (decide (s = s')) as [->|].
    + intros [= <-]. unfold in_flight. reflexivity.
    + intros Hs. rewrite (Hobs s' b Hs). unfold in_flight. reflexivity.
Qed.

Lemma consistent_unmount (k : EventKey) (s : Subscriber) (d : Dispatcher) :
  consistent d → consistent (unmount k s d).
Proof.
  intros Hc k'. destruct (Hc k') as [Hcount Hobs].
  assert (Hkept : ∀ st, st = {| status := status (state_of k d);
                                 lastError := lastError (state_of k d);
                                 subscribers := delete s (subscribers (state_of k d)) |} →
            count_key k' (submitted (put_state k st d))
            = count_key k' (settled (put_state k st d))
              + (if in_flight k' (put_state k st d) then 1 else 0)
            ∧ ∀ s' b, observed k' s' (put_state k st d) = Some b →
                      b = in_flight k' (put_state k st d)).
  { intros st ->. rewrite in_flight_put. split.
    - simpl. destruct (decide (k = k')) as [->|]; exact Hcount.
    - intros s' b. rewrite observed_put.
      destruct (decide (k = k')) as [->|]; [|apply Hobs]. simpl.
      rewrite lookup_delete. destruct (decide (s = s')); [discriminate|].
      apply Hobs. }
  unfold unmount. destruct (status (state_of k d)) eqn:Hst.
  - destruct (decide (delete s (subscribers (state_of k d)) = ∅)) as [Hempty|];
      [|apply Hkept; reflexivity].
    unfold in_flight, observed. rewrite state_of_drop. simpl. split.
    + destruct (decide (k = k')) as [->|]; [|exact Hcount].
      rewrite Hcount. unfold in_flight. rewrite Hst. reflexivity.
    + intros s' b. destruct (decide (k = k')) as [->|]; [|apply Hobs].
      simpl. rewrite lookup_empty. discriminate.
  - apply Hkept. reflexivity.
Qed.

Lemma consistent_dispatch (key : option EventKey) (p : Payload) (d : Dispatcher) :
  consistent d → consistent (dispatch key p d).1.
Proof.
  intros Hc. destruct key as [k|]; simpl; [|exact Hc].
  destruct (status (state_of k d)) eqn:Hst; simpl; [|exact Hc].
  intros k'. destruct (Hc k') as [Hcount Hobs]. split.
  - simpl. rewrite count_key_snoc.
    change (in_flight k' (submit k p ?x)) with (in_flight k' x).
    rewrite in_flight_put. simpl.
    destruct (decide (k = k')) as [->|]; [|lia].
    rewrite Hcount. unfold in_flight. rewrite Hst. lia.
  - intros s b.
    change (observed k' s (submit k p ?x)) with (observed k' s x).
    change (in_flight k' (submit k p ?x)) with (in_flight k' x).
    rewrite observed_put, in_flight_put. simpl.
    destruct (decide (k = k')) as [->|]; [|apply Hobs].
    apply observed_notify.
Qed.

Lemma consistent_settle (k : EventKey) (o : Outcome) (d : Dispatcher) :
  consistent d → consistent (settle k o d).1.
Proof.
  intros Hc. unfold settle.
  destruct (decide (count_key k (settled d) < count_key k (submitted d)))
    as [Hlt|]; simpl; [|exact Hc].
  intros k'. destruct (Hc k') as [Hcount Hobs]. split.
  - change (in_flight k' (record_outcome k o ?x)) with (in_flight k' x).
    rewrite in_flight_put. simpl. rewrite count_key_snoc.
    destruct (decide (k = k')) as [->|]; [|lia].
    destruct (in_flight k' d); lia.
  - intros s b.
    change (observed k' s (record_outcome k o ?x)) with (observed k' s x).
    change (in_flight k' (record_outcome k o ?x)) with (in_flight k' x).
    rewrite observed_put, in_flight_put. simpl.
    destruct (decide (k = k')) as [->|]; [|apply Hobs].
    apply observed_notify.
Qed.

Lemma consistent_step (d : Dispatcher) (i : Input) :
  consistent d → consistent (step d i).
Proof.
  destruct i; simpl.
  - apply consistent_mount.
  - apply consistent_unmount.
  - apply consistent_dispatch.
  - apply consistent_settle.
Qed.

Lemma consistent_run (inputs : list Input) (d : Dispatcher) :
  consistent d → consistent (run inputs d).
Proof.
  revert d. induction inputs as [|i rest IH]; intros d Hc; simpl; [exact Hc|].
  apply IH, consistent_step, Hc.
Qed.

Lemma step_keeps_flight (k : EventKey) (d : Dispatcher) (i : Input) :
  settles k i = false →
  in_flight k d = true →
  in_flight k (step d i) = true
  ∧ count_key k (submitted (step d i)) = count_key k (submitted d)
  ∧ ∀ s, subscribed k s d → i ≠ IUnmount k s → subscribed k s (step d i).
Proof.
  intros Hi Hfl. pose proof (proj1 (in_flight_status k d) Hfl) as Hst.
  destruct i as [k' s'|k' s'|[k'|] p|k' o]; simpl in Hi |- *.
  - unfold mount, subscribed. rewrite in_flight_put. split; [|split].
    + destruct (decide (k' = k)) as [->|]; [|exact Hfl]. simpl.
      by rewrite Hst.
    + reflexivity.
    + intros s Hs _. rewrite observed_put.
      destruct (decide (k' = k)) as [->|]; [|exact Hs]. simpl.
      rewrite lookup_insert. destruct (decide (s' = s)); [eauto|exact Hs].
  - unfold unmount, subscribed.
    destruct (decide (k' = k)) as [->|Hne].
    + rewrite Hst. rewrite in_flight_put, decide_True by reflexivity. simpl.
      split; [reflexivity|]. split; [reflexivity|].
      intros s Hs Hneq. rewrite observed_put, decide_True by reflexivity. simpl.
      rewrite lookup_delete_ne by congruence. exact Hs.
    + assert (Hsame : ∀ d', (d' = drop_state k' d ∨ ∃ st, d' = put_state k' st d) →
                state_of k d' = state_of k d ∧ submitted d' = submitted d).
      { intros d' [->| [st ->]].
        - rewrite state_of_drop, decide_False by exact Hne. by split.
        - rewrite state_of_put, decide_False by exact Hne. by split. }
      match goal with |- in_flight k ?d' = _ ∧ _ =>
        assert (Hd : state_of k d' = state_of k d ∧ submitted d' = submitted d)
      end.
      { apply Hsame. destruct (status (state_of k' d)); [|eauto].
        destruct (decide _); eauto. }
      destruct Hd as [Hstate Hsub]. unfold in_flight, observed.
      rewrite Hstate, Hsub. split; [exact Hfl|]. split; [reflexivity|]. (intros s Hs _; exact Hs).
  - destruct (decide (k' = k)) as [->|Hne].
    + rewrite Hst. simpl. split; [exact Hfl|]. split; [reflexivity|]. (intros s Hs _; exact Hs).
    + destruct (status (state_of k' d)); simpl;
        [|split; [exact Hfl|]; split; [reflexivity|]; (intros s Hs _; exact Hs)].
      change (in_flight k (submit k' p ?x)) with (in_flight k x).
      rewrite in_flight_put, decide_False by exact Hne.
      rewrite count_key_snoc, decide_False by exact Hne.
      split; [exact Hfl|]. split; [lia|].
      intros s Hs _. unfold subscribed.
      change (observed k s (submit k' p ?x)) with (observed k s x).
      rewrite observed_put, decide_False by exact Hne. exact Hs.
  - split; [exact Hfl|]. split; [reflexivity|]. (intros s Hs _; exact Hs).
  - apply bool_decide_eq_false in Hi. unfold settle.
    destruct (decide _); simpl;
      [|split; [exact Hfl|]; split; [reflexivity|]; (intros s Hs _; exact Hs)].
    change (in_flight k (record_outcome k' o ?x)) with (in_flight k x).
    rewrite in_flight_put, decide_False by exact Hi.
    split; [exact Hfl|]. split; [reflexivity|].
    intros s Hs _. unfold subscribed.
    change (observed k s (record_outcome k' o ?x)) with (observed k s x).
    rewrite observed_put, decide_False by exact Hi. exact Hs.
Qed.

Lemma run_keeps_flight (k : EventKey) (inputs : list Input) (d : Dispatcher) :
  unsettled k inputs = true →
  in_flight k d = true →
  in_flight k (run inputs d) = true
  ∧ count_key k (submitted (run inputs d)) = count_key k (submitted d).
Proof.
  revert d. induction inputs as [|i rest IH]; intros d Hun Hfl; simpl in *.
  - by split.
  - apply andb_true_iff in Hun as [Hi Hrest]. apply negb_true_iff in Hi.
    destruct (step_keeps_flight k d i Hi Hfl) as (Hfl' & Hcount & _).
    destruct (IH (step d i) Hrest Hfl') as [Hfl'' Hcount''].
    split; [exact Hfl''|]. by rewrite Hcount'', Hcount.
Qed.

Lemma dispatch_idle (k : EventKey) (p : Payload) (d : Dispatcher) :
  in_flight k d = false →
  in_flight k (dispatch (Some k) p d).1 = true
  ∧ submitted (dispatch (Some k) p d).1 = submitted d ++ [(k, p)]
  ∧ ∀ s, subscribed k s d → observed k s (dispatch (Some k) p d).1 = Some true.
Proof.
  intros Hidle. unfold in_flight in Hidle. simpl.
  destruct (status (state_of k d)) eqn:Hst; [|discriminate]. simpl.
  change (in_flight k (submit k p ?x)) with (in_flight k x).
  rewrite in_flight_put, decide_True by reflexivity. simpl.
  split; [reflexivity|]. split; [reflexivity|].
  intros s Hs.
  change (observed k s (submit k p ?x)) with (observed k s x).
  rewrite observed_put, decide_True by reflexivity. simpl.
  apply notify_subscribed, Hs.
Qed.

Lemma dispatch_in_flight (k : EventKey) (p : Payload) (d : Dispatcher) :
  in_flight k d = true →
  dispatch (Some k) p d = (log_diagnostic (DuplicateDispatchIgnored k) d, Returned).
Proof.
  intros Hfl. apply in_flight_status in Hfl. simpl. by rewrite Hfl.
Qed.

Lemma settle_in_flight (k : EventKey) (o : Outcome) (d : Dispatcher) :
  consistent d →
  in_flight k d = true →
  (settle k o d).2 = Returned
  ∧ status (state_of k (settle k o d).1) = Idle
  ∧ lastError (state_of k (settle k o d).1)
    = match o with Success => None | Failure e => Some e end
  ∧ settled (settle k o d).1 = settled d ++ [(k, o)]
  ∧ submitted (settle k o d).1 = submitted d
  ∧ ∀ s, subscribed k s d → observed k s (settle k o d).1 = Some false.
Proof.
  intros Hc Hfl. destruct (Hc k) as [Hcount _]. rewrite Hfl in Hcount.
  unfold settle. rewrite decide_True by lia. simpl.
  change (state_of k (record_outcome k o ?x)) with (state_of k x).
  rewrite state_of_put, decide_True by reflexivity. simpl.
  repeat (split; [reflexivity|]).
  intros s Hs.
  change (observed k s (record_outcome k o ?x)) with (observed k s x).
  rewrite observed_put, decide_True by reflexivity. simpl.
  apply notify_subscribed, Hs.
Qed.

Lemma outstanding_consistent (k : EventKey) (d : Dispatcher) :
  consistent d → outstanding k d = if in_flight k d then 1 else 0.
Proof.
  intros Hc. destruct (Hc k) as [Hcount _]. unfold outstanding. lia.
Qed.

(** C1: after any history, at most one engine call per key is outstanding;
    a [dispatch] for a key in flight changes neither the registry nor the
    submission log; and from an idle key, one [dispatch] followed by any
    inputs that do not resolve it leaves exactly one more submission for
    the key, still the only one outstanding. *)
Theorem single_flight_per_key
    (history : list Input) (k : EventKey) (p : Payload) (more : list Input) :
  let d := run history empty_dispatcher in
  outstanding k d ≤ 1
  ∧ (in_flight k d = true →
     registry (dispatch (Some k) p d).1 = registry d
     ∧ submitted (dispatch (Some k) p d).1 = submitted d
     ∧ settled (dispatch (Some k) p d).1 = settled d)
  ∧ (in_flight k d = false →
     unsettled k more = true →
     let d' := run (IDispatch (Some k) p :: more) d in
     count_key k (submitted d') = count_key k (submitted d) + 1
     ∧ outstanding k d' = 1).
Proof.
  intros d.
  assert (Hc : consistent d) by apply consistent_run, consistent_empty.
  split; [|split].
  - rewrite (outstanding_consistent k d Hc). destruct (in_flight k d); lia.
  - intros Hfl. rewrite (dispatch_in_flight k p d Hfl). by simpl.
  - intros Hidle Hmore d'. subst d'.
    change (run (IDispatch (Some k) p :: more) d)
      with (run more (dispatch (Some k) p d).1).
    destruct (dispatch_idle k p d Hidle) as (Hfl & Hsub & _).
    destruct (run_keeps_flight k more _ Hmore Hfl) as [Hfl' Hcount].
    split.
    + rewrite Hcount, Hsub, count_key_snoc, decide_True by reflexivity.
      reflexivity.
    + rewrite outstanding_consistent, Hfl'; [reflexivity|].
      apply consistent_run, (consistent_dispatch (Some k)), Hc.
Qed.

(** C2: when [dispatch] takes an idle key in flight, every subscriber of
    the key has been told [isLoading = true] by the time [dispatch]
    suspends, with the engine call still outstanding; whoever is subscribed
    while the call is outstanding, late mounts included, sees [true]; and
    once the engine resolves, with success or with failure, every
    subscriber has been told [isLoading = false]. *)
Theorem subscribers_follow_dispatch
    (history : list Input) (k : EventKey) (p : Payload) (mid : list Input)
    (o : Outcome) :
  let d := run history empty_dispatcher in
  in_flight k d = false →
  unsettled k mid = true →
  let d1 := (dispatch (Some k) p d).1 in
  let d2 := run mid d1 in
  let d3 := (settle k o d2).1 in
  (∀ s, subscribed k s d → observed k s d1 = Some true)
  ∧ outstanding k d1 = 1
  ∧ (∀ s, subscribed k s d2 → observed k s d2 = Some true)
  ∧ outstanding k d2 = 1
  ∧ (∀ s, subscribed k s d2 → observed k s d3 = Some false)
  ∧ isLoading (useDispatcher d3 (Some k)) = false.
Proof.
  intros d Hidle Hmid. cbv zeta.
  assert (Hc : consistent d) by apply consistent_run, consistent_empty.
  destruct (dispatch_idle k p d Hidle) as (Hfl1 & _ & Hseen).
  set (d1 := (dispatch (Some k) p d).1) in *.
  assert (Hc1 : consistent d1) by apply (consistent_dispatch (Some k)), Hc.
  destruct (run_keeps_flight k mid d1 Hmid Hfl1) as [Hfl2 _].
  set (d2 := run mid d1) in *.
  assert (Hc2 : consistent d2) by apply consistent_run, Hc1.
  destruct (settle_in_flight k o d2 Hc2 Hfl2) as (_ & Hst & _ & _ & _ & Hdone).
  pose proof (outstanding_consistent k d1 Hc1) as Hout1.
  pose proof (outstanding_consistent k d2 Hc2) as Hout2.
  destruct (Hc2 k) as [_ Hobs].
  rewrite Hfl1 in Hout1. rewrite Hfl2 in Hout2.
  split; [exact Hseen|]. split; [exact Hout1|]. split.
  { intros s [b Hb]. rewrite Hb, (Hobs s b Hb), Hfl2. reflexivity. }
  split; [exact Hout2|]. split; [exact Hdone|].
  simpl. unfold in_flight. by rewrite Hst.
Qed.

(** C3: queried with no key, the dispatcher answers [isDisabled = true],
    so a button without an event renders disabled; and the [dispatch] it
    hands out, on any payload, leaves the registry and the submission
    channel alone and returns. *)
Theorem unbound_key_is_disabled
    (d : Dispatcher) (p : Payload) (props : Button) (pg : Page) :
  isDisabled (useDispatcher d None) = true
  ∧ btn_disabled (ButtonRender (useDispatcher d) (set_event None props)) = true
  ∧ registry (dispatch None p d).1 = registry d
  ∧ submitted (dispatch None p d).1 = submitted d
  ∧ settled (dispatch None p d).1 = settled d
  ∧ errorChannel (dispatch None p d).1 = errorChannel d
  ∧ (dispatch None p d).2 = Returned
  ∧ submitted (dispatcher
                 (exec (Dispatch None p) {| dispatcher := d; page := pg |}).1)
    = submitted d.
Proof. repeat split. Qed.

(** C4: when the engine resolves a dispatch with an error, the key is
    idle again with the error recorded and sent to the error channel,
    every subscriber has been told [isLoading = false], nothing is thrown,
    the button renders enabled, and a new [dispatch] is submitted. *)
Theorem engine_failure_recovers
    (history : list Input) (k : EventKey) (e : Error) (p : Payload)
    (props : Button) :
  let d := run history empty_dispatcher in
  in_flight k d = true →
  let d' := (settle k (Failure e) d).1 in
  (settle k (Failure e) d).2 = Returned
  ∧ status (state_of k d') = Idle
  ∧ lastError (state_of k d') = Some e
  ∧ errorChannel d' = errorChannel d ++ [(k, e)]
  ∧ (∀ s, subscribed k s d → observed k s d' = Some false)
  ∧ useDispatcher d' (Some k) = {| isLoading := false; isDisabled := false |}
  ∧ btn_disabled (ButtonRender (useDispatcher d') (set_event (Some k) props))
    = false
  ∧ (dispatch (Some k) p d').2 = Returned
  ∧ submitted (dispatch (Some k) p d').1 = submitted d' ++ [(k, p)].
Proof.
  intros d Hfl. cbv zeta.
  assert (Hc : consistent d) by apply consistent_run, consistent_empty.
  destruct (settle_in_flight k (Failure e) d Hc Hfl)
    as (Hret & Hst & Herr & _ & _ & Hseen).
  assert (Hchan : errorChannel (settle k (Failure e) d).1
                  = errorChannel d ++ [(k, e)]).
  { unfold settle. destruct (Hc k) as [Hcount _].
    rewrite Hfl in Hcount. rewrite decide_True by lia. reflexivity. }
  set (d' := (settle k (Failure e) d).1) in *.
  assert (Hidle : in_flight k d' = false) by (unfold in_flight; by rewrite Hst).
  split; [exact Hret|]. split; [exact Hst|]. split; [exact Herr|].
  split; [exact Hchan|].
  split; [exact Hseen|]. split.
  { simpl. by rewrite Hidle. }
  split.
  { rewrite Button_disabled. simpl. by rewrite Hidle. }
  destruct (dispatch_idle k p d' Hidle) as (_ & Hsub & _).
  split; [|exact Hsub].
  simpl. by rewrite Hst.
Qed.

(** C5: whatever the dispatcher answers, a button and a crumb whose query
    says [isLoading] render disabled; and a component that mounts on a key
    in flight is told [isLoading = true] and renders disabled. *)
Theorem loading_control_is_disabled
    (q : option EventKey → DispatcherQuery) (props : Button)
    (crumb : CrumbProps) (d : Dispatcher) (s : Subscriber) :
  (isLoading (q (nullish (event props))) = true →
   btn_disabled (ButtonRender q props) = true)
  ∧ (isLoading (q (Some (crumb_event crumb))) = true →
     crumb_disabled (Crumb q crumb) = true)
  ∧ (in_flight (crumb_event crumb) d = true →
     let d' := mount (crumb_event crumb) s d in
     observed (crumb_event crumb) s d' = Some true
     ∧ isLoading (useDispatcher d' (Some (crumb_event crumb))) = true
     ∧ crumb_disabled (Crumb (useDispatcher d') crumb) = true
     ∧ btn_disabled
         (ButtonRender (useDispatcher d')
            (set_event (Some (crumb_event crumb)) props)) = true).
Proof.
  split; [|split].
  - intros Hl. rewrite Button_disabled, Hl. apply orb_true_r.
  - intros Hl. rewrite Crumb_disabled, Hl. reflexivity.
  - intros Hfl d'.
    assert (Hfl' : in_flight (crumb_event crumb) d' = true).
    { subst d'. unfold mount. rewrite in_flight_put, decide_True by reflexivity.
      simpl. apply in_flight_status in Hfl. by rewrite Hfl. }
    split.
    { subst d'. unfold mount. rewrite observed_put, decide_True by reflexivity.
      simpl. by rewrite lookup_insert_eq, Hfl. }
    split; [exact Hfl'|]. split.
    + rewrite Crumb_disabled. simpl. by rewrite Hfl'.
    + rewrite Button_disabled. simpl. rewrite Hfl'. reflexivity.
Qed.

(** ** The bubble marker *)

Lemma exec_returns (c : Call) (w : World) : (exec c w).2 = Returned.
Proof.
  destruct c as [msg|el ev|[k|] p|el ev]; simpl; try reflexivity.
  destruct (status (state_of k (dispatcher w))); reflexivity.
Qed.

Lemma run_calls_cons (c : Call) (rest : list Call) (w : World) :
  run_calls (c :: rest) w = run_calls rest (exec c w).1.
Proof.
  simpl. pose proof (exec_returns c w) as Hret.
  destruct (exec c w) as [w' r]. simpl in Hret. by subst r.
Qed.

Lemma page_dispatch (key : option EventKey) (p : Payload) (w : World) :
  page (exec (Dispatch key p) w).1 = page w.
Proof. simpl. by destruct (dispatch key p (dispatcher w)). Qed.

Lemma page_run_listener (l : Listener) (ev : ClickEvent) (w : World) :
  page (run_calls (handler_of l ev) w).1 = listener_effect l ev (page w).
Proof.
  destruct l as [props|props|]; unfold handler_of, listener_effect.
  - unfold Button_onClick. destruct (is_truthy_key (event props)); cbn [negb].
    + rewrite !run_calls_cons. cbn [run_calls fst]. by rewrite page_dispatch.
    + reflexivity.
  - unfold Crumb_onClick. rewrite run_calls_cons. cbn [run_calls fst].
    apply page_dispatch.
  - reflexivity.
Qed.

Lemma page_propagate (chain : list (Element * Listener)) (eid : nat) (w : World) :
  page (propagate chain eid w) = page_after chain eid (page w).
Proof.
  revert w. induction chain as [|[el l] outer IH]; intros w; simpl.
  - reflexivity.
  - rewrite IH, page_run_listener. reflexivity.
Qed.

Lemma doBubble_marked (el : Element) (ev : ClickEvent) (pg : Page) (m : Marker) :
  markers pg !! event_id ev = Some m → doBubble el ev pg = pg.
Proof. intros Hm. unfold doBubble. by rewrite Hm. Qed.

Lemma doBubble_fresh (el : Element) (ev : ClickEvent) (pg : Page) :
  markers pg !! event_id ev = None →
  markers (doBubble el ev pg) !! event_id ev
  = Some {| marker_target := el; marker_event := ev |}
  ∧ times_attached (event_id ev) (doBubble el ev pg)
    = S (times_attached (event_id ev) pg)
  ∧ ripples (doBubble el ev pg) = ripples pg.
Proof.
  intros Hm. unfold doBubble, times_attached. rewrite Hm. simpl.
  rewrite lookup_insert_eq, filter_app, length_app.
  rewrite filter_cons_True by reflexivity. simpl. split; [reflexivity|].
  split; [lia|reflexivity].
Qed.

Lemma doBubble_other (el : Element) (ev : ClickEvent) (pg : Page) (other : nat) :
  other ≠ event_id ev →
  markers (doBubble el ev pg) !! other = markers pg !! other
  ∧ times_attached other (doBubble el ev pg) = times_attached other pg.
Proof.
  intros Hne. unfold doBubble, times_attached.
  destruct (markers pg !! event_id ev); [by split|]. simpl.
  rewrite lookup_insert_ne by congruence. split; [reflexivity|].
  rewrite filter_app, length_app.
  rewrite filter_cons_False by (simpl; congruence). simpl. lia.
Qed.

Lemma listener_keeps_marker (l : Listener) (ev : ClickEvent) (pg : Page)
    (m : Marker) :
  markers pg !! event_id ev = Some m →
  markers (listener_effect l ev pg) !! event_id ev = Some m
  ∧ times_attached (event_id ev) (listener_effect l ev pg)
    = times_attached (event_id ev) pg
  ∧ ripples (listener_effect l ev pg)
    = ripples pg ++ match l with
                    | AncestorListener => [(currentTarget ev, Some m)]
                    | _ => []
                    end.
Proof.
  intros Hm. destruct l as [props|props|]; simpl.
  - destruct (is_truthy_key (event props)).
    + rewrite (doBubble_marked _ _ _ _ Hm), app_nil_r. by split.
    + simpl. rewrite app_nil_r. by split.
  - rewrite app_nil_r. by split.
  - rewrite Hm. by split.
Qed.

Lemma listener_other (l : Listener) (ev : ClickEvent) (pg : Page) (other : nat) :
  other ≠ event_id ev →
  markers (listener_effect l ev pg) !! other = markers pg !! other
  ∧ times_attached other (listener_effect l ev pg) = times_attached other pg.
Proof.
  intros Hne. destruct l as [props|props|]; simpl; try by split.
  destruct (is_truthy_key (event props)); [|by split].
  by apply doBubble_other.
Qed.

Lemma listener_marker_ok (l : Listener) (ev : ClickEvent) (pg : Page) :
  marker_ok (event_id ev) pg → marker_ok (event_id ev) (listener_effect l ev pg).
Proof.
  unfold marker_ok. destruct (markers pg !! event_id ev) as [m|] eqn:Hm.
  - destruct (listener_keeps_marker l ev pg m Hm) as (-> & -> & _). tauto.
  - intros Hzero. destruct l as [props|props|]; simpl.
    + destruct (is_truthy_key (event props)).
      * destruct (doBubble_fresh (currentTarget ev) ev pg Hm) as (-> & -> & _).
        by rewrite Hzero.
      * simpl. by rewrite Hm.
    + by rewrite Hm.
    + by rewrite Hm.
Qed.

Lemma page_after_marker_ok (chain : list (Element * Listener)) (eid : nat)
    (pg : Page) :
  marker_ok eid pg → marker_ok eid (page_after chain eid pg).
Proof.
  revert pg. induction chain as [|[el l] outer IH]; intros pg Hok; simpl.
  - exact Hok.
  - apply IH.
    apply (listener_marker_ok l {| event_id := eid; currentTarget := el |}), Hok.
Qed.

Lemma page_after_marked (chain : list (Element * Listener)) (eid : nat)
    (pg : Page) (m : Marker) :
  markers pg !! eid = Some m →
  markers (page_after chain eid pg) !! eid = Some m
  ∧ times_attached eid (page_after chain eid pg) = times_attached eid pg
  ∧ ripples (page_after chain eid pg)
    = ripples pg ++ map (λ a, (a, Some m)) (consumers chain).
Proof.
  revert pg. induction chain as [|[el l] outer IH]; intros pg Hm; simpl.
  - rewrite app_nil_r. by split.
  - destruct (listener_keeps_marker l {| event_id := eid; currentTarget := el |}
                pg m Hm) as (Hm' & Hn' & Hr').
    cbn [event_id currentTarget] in Hm', Hn', Hr'.
    destruct (IH _ Hm') as (Hm'' & Hn'' & Hr'').
    split; [exact Hm''|]. split; [by rewrite Hn'', Hn'|].
    rewrite Hr'', Hr'. destruct l; simpl; rewrite <- ?app_assoc; simpl;
      by rewrite ?app_nil_r.
Qed.

Lemma page_after_other (chain : list (Element * Listener)) (eid other : nat)
    (pg : Page) :
  other ≠ eid →
  markers (page_after chain eid pg) !! other = markers pg !! other
  ∧ times_attached other (page_after chain eid pg) = times_attached other pg.
Proof.
  intros Hne. revert pg.
  induction chain as [|[el l] outer IH]; intros pg; simpl; [by split|].
  destruct (IH (listener_effect l {| event_id := eid; currentTarget := el |} pg))
    as [-> ->].
  by apply listener_other.
Qed.

Lemma page_after_ancestors (ancs : list Element) (eid : nat) (pg : Page) :
  markers (page_after (map (λ a, (a, AncestorListener)) ancs) eid pg)
  = markers pg
  ∧ ripples (page_after (map (λ a, (a, AncestorListener)) ancs) eid pg)
    = ripples pg ++ map (λ a, (a, markers pg !! eid)) ancs.
Proof.
  revert pg. induction ancs as [|a rest IH]; intros pg; simpl.
  - by rewrite app_nil_r.
  - destruct (IH (consume a {| event_id := eid; currentTarget := a |} pg))
      as [-> ->].
    simpl. by rewrite <- app_assoc.
Qed.

(** C8: for a fresh click on a button with a bound key, whatever listeners
    lie on the way up, the marker is attached once, at the button; it is
    still that marker when propagation ends; every ancestor listener on the
    chain reads it; no chain of listeners attaches more than one marker to
    the event; and a second event carries nothing of it: its own marker
    slot is as before, and ancestors read from it what they would have
    read had the first click not happened. *)
Theorem bubble_marker_set_once
    (w : World) (eid other : nat) (el : Element) (props : Button)
    (k : EventKey) (outer chain : list (Element * Listener))
    (ancs : list Element) :
  event props = Some k →
  truthy k = true →
  markers (page w) !! eid = None →
  times_attached eid (page w) = 0 →
  other ≠ eid →
  let m := {| marker_target := el;
              marker_event := {| event_id := eid; currentTarget := el |} |} in
  let w' := propagate ((el, ButtonListener props) :: outer) eid w in
  times_attached eid (page w') = 1
  ∧ markers (page w') !! eid = Some m
  ∧ ripples (page w') = ripples (page w) ++ map (λ a, (a, Some m)) (consumers outer)
  ∧ times_attached eid (page (propagate chain eid w)) ≤ 1
  ∧ markers (page w') !! other = markers (page w) !! other
  ∧ ripples (page (propagate (map (λ a, (a, AncestorListener)) ancs) other w'))
    = ripples (page w') ++ map (λ a, (a, markers (page w) !! other)) ancs.
Proof.
  intros Hkey Htruthy Hfresh Hzero Hother. cbv zeta.
  rewrite !page_propagate. cbn [page_after listener_effect is_truthy_key].
  rewrite Hkey. cbn [is_truthy_key]. rewrite Htruthy.
  cbn [event_id currentTarget].
  destruct (doBubble_fresh el {| event_id := eid; currentTarget := el |}
              (page w) Hfresh) as (Hm & Hn & Hr).
  cbn [event_id currentTarget] in Hm, Hn, Hr.
  set (ev := {| event_id := eid; currentTarget := el |}) in *.
  destruct (page_after_marked outer eid _ _ Hm) as (Hm' & Hn' & Hr').
  split; [by rewrite Hn', Hn, Hzero|]. split; [exact Hm'|].
  split; [by rewrite Hr', Hr|]. split.
  { assert (Hok : marker_ok eid (page_after chain eid (page w))).
    { apply page_after_marker_ok. unfold marker_ok. by rewrite Hfresh. }
    unfold marker_ok in Hok.
    destruct (markers (page_after chain eid (page w)) !! eid); lia. }
  assert (Hsame : markers (page_after outer eid (doBubble el ev (page w))) !! other
                  = markers (page w) !! other).
  { destruct (page_after_other outer eid other (doBubble el ev (page w)) Hother)
      as [-> _].
    apply (doBubble_other el ev (page w) other). exact Hother. }
  split; [exact Hsame|].
  destruct (page_after_ancestors ancs other
              (page_after outer eid (doBubble el ev (page w)))) as [_ ->].
  by rewrite Hsame.
Qed.

(** ** The header *)

Lemma HeaderSize_tag_cases (s : string) :
  (∀ h, HeaderSize_tag h ≠ s) ↔ s ≠ "Large" ∧ s ≠ "Medium" ∧ s ≠ "Small".
Proof.
  split.
  - intros Hno. repeat split; intros ->.
    + by apply (Hno HLarge).
    + by apply (Hno HMedium).
    + by apply (Hno HSmall).
  - intros (HL & HM & HS) [] <-; simpl in HL, HM, HS; congruence.
Qed.

(** X1: [getIconSize] throws exactly on the strings that are not a
    [HeaderSize]; its only error is 'unknown size', and what it returns is
    25 or 20. *)
Theorem getIconSize_throws_iff (s : string) :
  (getIconSize s = Throw "unknown size" ↔ ∀ h, HeaderSize_tag h ≠ s)
  ∧ (∀ e, getIconSize s = Throw e → e = "unknown size")
  ∧ (∀ n, getIconSize s = Ok n →
          (n = 25 ∨ n = 20)%Z ∧ ∃ h, HeaderSize_tag h = s).
Proof.
  rewrite HeaderSize_tag_cases. unfold getIconSize.
  destruct (String.eqb_spec s "Large") as [->|HL].
  { split; [split; [discriminate|intros (? & _); congruence]|].
    split; [discriminate|]. intros n [= <-]. split; [by left|by exists HLarge]. }
  destruct (String.eqb_spec s "Medium") as [->|HM].
  { split; [split; [discriminate|intros (_ & ? & _); congruence]|].
    split; [discriminate|]. intros n [= <-]. split; [by right|by exists HMedium]. }
  destruct (String.eqb_spec s "Small") as [->|HS].
  { split; [split; [discriminate|intros (_ & _ & ?); congruence]|].
    split; [discriminate|]. intros n [= <-]. split; [by right|by exists HSmall]. }
  split; [by split|]. split; [by intros e [= <-]|discriminate].
Qed.

(** X2: [getTextSize] returns [undefined] exactly where [getIconSize]
    throws; on the header sizes it gives three different classes, whereas
    [getIconSize] gives Medium and Small the same size. *)
Theorem getTextSize_defined_iff (s : string) :
  (getTextSize s = None ↔ getIconSize s = Throw "unknown size")
  ∧ (∀ h1 h2, getTextSize (HeaderSize_tag h1) = getTextSize (HeaderSize_tag h2) →
              h1 = h2)
  ∧ getIconSize (HeaderSize_tag HMedium) = getIconSize (HeaderSize_tag HSmall).
Proof.
  split; [|split; [|reflexivity]].
  - unfold getTextSize, getIconSize.
    destruct (String.eqb s "Large"); [split; discriminate|].
    destruct (String.eqb s "Medium"); [split; discriminate|].
    destruct (String.eqb s "Small"); [split; discriminate|]. by split.
  - intros [] []; cbv; intros Heq; first [reflexivity | discriminate Heq].
Qed.

Lemma render_items_cases (s : string) (items : list HeaderActionItem) :
  match getIconSize s with
  | Ok n => render_items s items = Ok (map (item_button n) items)
  | Throw e =>
      render_items s items = match items with [] => Ok [] | _ :: _ => Throw e end
  end.
Proof.
  destruct (getIconSize s) as [n|e] eqn:Hsize.
  - induction items as [|item rest IH]; simpl; [reflexivity|].
    by rewrite Hsize, IH.
  - destruct items as [|item rest]; simpl; [reflexivity|]. by rewrite Hsize.
Qed.

(** X3: the event items render in order, one icon button each, all with
    the size [getIconSize] gives; when [getIconSize] throws, so does the
    render, unless there are no items, for then it is never called. *)
Theorem render_items_result (s : string) (items : list HeaderActionItem) :
  match getIconSize s with
  | Ok n => render_items s items = Ok (map (item_button n) items)
  | Throw e =>
      render_items s items = match items with [] => Ok [] | _ :: _ => Throw e end
  end.
Proof. exact (render_items_cases s items). Qed.

Lemma render_items_typed (h : HeaderSize) (items : list HeaderActionItem) :
  render_items (HeaderSize_tag h) items
  = Ok (map (item_button (match h with HLarge => 25 | _ => 20 end)%Z) items).
Proof.
  pose proof (render_items_cases (HeaderSize_tag h) items) as Hres.
  rewrite getIconSize_tag in Hres. rewrite Hres. by destruct h.
Qed.

(** X4: a header always renders: its text class is 2xl, xl or lg (xl when
    no size is given), its title label carries the title's edit event and
    placeholder, and it has one Primary icon button per event item, in
    order, of size 25 for Large and 20 otherwise.  The smaller model
    [HeaderRender] agrees with it. *)
Theorem HeaderRender_full_renders (props : HeaderProps) :
  let h := default HMedium (hp_size props) in
  let n := (match h with HLarge => 25 | _ => 20 end)%Z in
  ∃ v, HeaderRender_full props = Ok v
       ∧ hv_textSize v
         = Some (match h with HLarge => "2xl" | HMedium => "xl" | HSmall => "lg" end)
       ∧ hv_title v
         = {| lbl_color := {| type := "Fore"; def := 90 |};
              lbl_bold := true; lbl_italic := false;
              lbl_text := hp_title props;
              lbl_editEvent := hp_titleEditEvent props;
              lbl_placeholder := hp_titlePlaceholder props |}
       ∧ hv_items v
         = map (λ item, ({| type := "Primary"; def := 100 |}, item_button n item))
             (default [] (hp_eventItems props))
       ∧ HeaderRender (Header_of props)
         = Ok {| header_textSize := hv_textSize v;
                 header_title := lbl_text (hv_title v);
                 header_items := (hv_items v).*2 |}.
Proof.
  intros h n. unfold HeaderRender_full, HeaderRender, Header_of, js_or. simpl.
  fold h. rewrite render_items_typed. fold n.
  eexists. split; [reflexivity|]. simpl.
  split; [by destruct h|]. split; [reflexivity|]. split.
  - by rewrite map_map.
  - do 2 f_equal. rewrite <- list_fmap_compose.
    symmetry. apply list_fmap_id.
Qed.

(** X5: the subtitle is rendered only when it is a non-empty string, and
    then with its edit event and placeholder.  With no subtitle, or an
    empty one, there is no subtitle label and the subtitle's edit event
    and placeholder change nothing. *)
Theorem Header_subtitle_needs_text
    (props : HeaderProps) (e : option EventKey) (placeholder : option string) :
  (hp_subtitle props = None ∨ hp_subtitle props = Some "" →
   HeaderRender_full (set_subtitle_editing e placeholder props)
   = HeaderRender_full props
   ∧ ∀ v, HeaderRender_full props = Ok v → hv_subtitle v = None)
  ∧ (∀ text, hp_subtitle props = Some text → text ≠ "" →
     ∀ v, HeaderRender_full props = Ok v →
          hv_subtitle v
          = Some {| lbl_color := {| type := "Fore"; def := 30 |};
                    lbl_bold := false; lbl_italic := false; lbl_text := text;
                    lbl_editEvent := hp_subtitleEditEvent props;
                    lbl_placeholder := hp_subtitlePlaceholder props |}).
Proof.
  split.
  - intros Hsub. unfold HeaderRender_full, set_subtitle_editing, js_or. simpl.
    rewrite !render_items_typed.
    destruct Hsub as [-> | ->]; simpl; (split; [reflexivity|]);
      by intros v [= <-].
  - intros text Hsub Hne v. unfold HeaderRender_full, js_or.
    rewrite render_items_typed, Hsub. unfold truthy_string.
    destruct (String.eqb_spec text "") as [->|_]; [done|].
    by intros [= <-].
Qed.

(** ** The button, beyond its defaults *)

(** X6: a field that is present but falsy is the same as an absent one:
    [outline: false], [full: false], and an icon named by the empty
    string. *)
Theorem ButtonRender_falsy_fields
    (q : option EventKey → DispatcherQuery) (props : Button) :
  ButtonRender q (set_outline (Some false) props)
  = ButtonRender q (set_outline None props)
  ∧ ButtonRender q (set_full (Some false) props)
    = ButtonRender q (set_full None props)
  ∧ ButtonRender q (set_leadingIcon (Some "") props)
    = ButtonRender q (set_leadingIcon None props)
  ∧ ButtonRender q (set_trailingIcon (Some "") props)
    = ButtonRender q (set_trailingIcon None props).
Proof. repeat split. Qed.

(** X7: the text, the icons and the spinner of a button share one color.
    On a filled button it is Fore 100 for the Base and Fore types and
    DecorationFore 100 for every other, so two colors of one type give the
    same foreground; on an outlined button it is the button's color. *)
Theorem Button_foreground
    (q : option EventKey → DispatcherQuery) (props : Button) :
  let v := ButtonRender q props in
  let c := default {| type := "Primary"; def := 100 |} (color props) in
  ∃ fg,
    btn_textColor v = "text-" +:+ getColor fg (Some 100%Z)
    ∧ (∀ i, btn_leadingIcon v = Some i ∨ btn_trailingIcon v = Some i →
            icon_color i = fg)
    ∧ (∀ sp, btn_spinner v = Some sp → spinner_color sp = fg)
    ∧ (truthy_flag (outline props) = true → fg = c)
    ∧ (truthy_flag (outline props) = false →
       fg = if bool_decide (type c = "Base" ∨ type c = "Fore")
            then {| type := "Fore"; def := 100 |}
            else {| type := "DecorationFore"; def := 100 |}).
Proof.
  intros v c. subst v. unfold ButtonRender, js_or. cbn [btn_textColor
    btn_leadingIcon btn_trailingIcon btn_spinner]. fold c.
  set (fg := if truthy_flag (outline props) then c
             else if String.eqb (type c) "Base" || String.eqb (type c) "Fore"
                  then {| type := "Fore"; def := 100 |}
                  else {| type := "DecorationFore"; def := 100 |}).
  exists fg. split; [reflexivity|]. split.
  { intros i [Hi|Hi]; unfold icon_of in Hi;
      [destruct (leadingIcon props) as [name|]
      |destruct (trailingIcon props) as [name|]]; try discriminate;
      destruct (truthy_string name); try discriminate; by injection Hi as <-. }
  split.
  { intros sp Hsp. destruct (isLoading _); [|discriminate]. by injection Hsp as <-. }
  subst fg. split; intros ->; [reflexivity|].
  destruct (String.eqb_spec (type c) "Base") as [HB|HB];
    destruct (String.eqb_spec (type c) "Fore") as [HF|HF]; simpl;
    (rewrite bool_decide_eq_true_2 by tauto) || (rewrite bool_decide_eq_false_2 by tauto);
    reflexivity.
Qed.


(** X9: a bigger size gives a strictly bigger button: the horizontal
    padding is 8, 11, 14, the vertical padding and the gap 5, 6, 8 for
    Small, Medium, Large, whatever the other props. *)
Theorem Button_sizes_increase
    (q : option EventKey → DispatcherQuery) (props : Button) :
  let r s := ButtonRender q (set_size (Some s) props) in
  (btn_px (r Small), btn_px (r Medium), btn_px (r Large)) = (8, 11, 14)%Z
  ∧ (btn_py (r Small), btn_py (r Medium), btn_py (r Large)) = (5, 6, 8)%Z
  ∧ (∀ s, btn_gap (r s) = btn_py (r s))
  ∧ (btn_px (r Small) < btn_px (r Medium) < btn_px (r Large))%Z
  ∧ (btn_py (r Small) < btn_py (r Medium) < btn_py (r Large))%Z.
Proof.
  intros r. subst r. cbn [btn_px btn_py btn_gap ButtonRender set_size size js_or
    default scale_of]. repeat split.
Qed.

(** X10: what the button's handler can do.  If it dispatches, the key is
    the button's own, it is truthy, the payload is null, and the call
    follows [doBubble] on the event and its current target; if it logs,
    it does nothing else; it never reads the marker. *)
Theorem Button_onClick_calls
    (q : option EventKey → DispatcherQuery) (props : Button) (ev : ClickEvent) :
  let calls := btn_onClick (ButtonRender q props) ev in
  (∀ key p, Dispatch key p ∈ calls →
     ∃ k, key = Some k ∧ event props = Some k ∧ truthy k = true ∧ p = PNull
          ∧ calls = [DoBubble (currentTarget ev) ev; Dispatch (Some k) PNull])
  ∧ (∀ el ev', DoBubble el ev' ∈ calls →
       el = currentTarget ev ∧ ev' = ev ∧ is_truthy_key (event props) = true)
  ∧ (∀ msg, ConsoleError msg ∈ calls →
       is_truthy_key (event props) = false ∧ calls = [ConsoleError msg])
  ∧ (∀ el ev', Consume el ev' ∉ calls).
Proof.
  intros calls. subst calls. cbn [btn_onClick ButtonRender].
  unfold Button_onClick, nullish.
  destruct (event props) as [k|] eqn:Hkey; cbn [is_truthy_key];
    [destruct (truthy k) eqn:Htruthy|]; cbn [negb];
    repeat split; intros;
    try match goal with |- _ ∉ _ => intros Hin end;
    repeat match goal with
           | Hin : _ ∈ _ :: _ |- _ => apply elem_of_cons in Hin as [Hin|Hin]
           | Hin : _ ∈ [] |- _ => by apply elem_of_nil in Hin
           | Hin : _ = _ |- _ => discriminate Hin
           | Hin : Dispatch _ _ = Dispatch _ _ |- _ => injection Hin as -> ->
           | Hin : DoBubble _ _ = DoBubble _ _ |- _ => injection Hin as -> ->
           | Hin : ConsoleError _ = ConsoleError _ |- _ => injection Hin as ->
           end;
    eauto 10.
Qed.

(** ** Breadcrumbs and the center layouts *)

Lemma trail_crumbs_app (xs ys : list TrailNode) :
  trail_crumbs (xs ++ ys) = trail_crumbs xs ++ trail_crumbs ys.
Proof.
  induction xs as [|[v| |l] xs IH]; simpl; [reflexivity| |exact IH|exact IH].
  by rewrite IH.
Qed.

Lemma trail_crumbs_fragments
    (q : option EventKey → DispatcherQuery) (cs : list CrumbProps) :
  trail_crumbs (flat_map (Crumb_fragment q) cs) = map (Crumb q) cs.
Proof. induction cs as [|c cs IH]; simpl; [reflexivity|]. by rewrite IH. Qed.

Lemma length_fragments
    (q : option EventKey → DispatcherQuery) (cs : list CrumbProps) :
  length (flat_map (Crumb_fragment q) cs) = 2 * length cs.
Proof. induction cs as [|c cs IH]; simpl; [reflexivity|]. rewrite IH. lia. Qed.

Lemma lookup_fragments
    (q : option EventKey → DispatcherQuery) (cs : list CrumbProps)
    (i : nat) (c : CrumbProps) :
  cs !! i = Some c →
  flat_map (Crumb_fragment q) cs !! (2 * i) = Some (TrailCrumb (Crumb q c))
  ∧ flat_map (Crumb_fragment q) cs !! (2 * i + 1) = Some TrailChevron.
Proof.
  revert i. induction cs as [|c' cs IH]; intros i Hi; [discriminate|].
  destruct i as [|i]; simpl in Hi.
  - injection Hi as ->. by split.
  - destruct (IH i Hi) as [Heven Hodd].
    replace (2 * S i) with (S (S (2 * i))) by lia.
    replace (S (S (2 * i)) + 1) with (S (S (2 * i + 1))) by lia.
    by split.
Qed.

Lemma trail_crumbs_render
    (q : option EventKey → DispatcherQuery) (props : Breadcrumbs) :
  trail_crumbs (trail (BreadcrumbsRender q props)) = map (Crumb q) (crumbs props).
Proof.
  unfold BreadcrumbsRender. cbn [trail].
  rewrite trail_crumbs_app, trail_crumbs_fragments.
  destruct (current props) as [text|]; [destruct (truthy_string text)|];
    simpl; by rewrite app_nil_r.
Qed.

(** X11: the row of the breadcrumbs holds, for the i-th crumb, its button
    at position 2i and a chevron at 2i+1, then the current label when
    [current] is a non-empty string: 2n nodes, or 2n+1.  The body is
    rendered exactly when there is one. *)
Theorem Breadcrumbs_trail_layout
    (q : option EventKey → DispatcherQuery) (props : Breadcrumbs) :
  let v := BreadcrumbsRender q props in
  let shown := match current props with
               | Some text => truthy_string text
               | None => false
               end in
  trail_crumbs (trail v) = map (Crumb q) (crumbs props)
  ∧ length (trail v) = 2 * length (crumbs props) + (if shown then 1 else 0)
  ∧ (∀ i c, crumbs props !! i = Some c →
       trail v !! (2 * i) = Some (TrailCrumb (Crumb q c))
       ∧ trail v !! (2 * i + 1) = Some TrailChevron)
  ∧ trail_body v = ComponentRender <$> body props.
Proof.
  intros v shown. subst v shown. split; [apply trail_crumbs_render|].
  unfold BreadcrumbsRender. cbn [trail trail_body].
  split; [|split; [|reflexivity]].
  - rewrite length_app, length_fragments.
    destruct (current props) as [text|]; [destruct (truthy_string text)|];
      reflexivity.
  - intros i c Hi. destruct (lookup_fragments q _ i c Hi) as [Heven Hodd].
    split; rewrite lookup_app_l; try assumption;
      rewrite length_fragments; apply lookup_lt_Some in Hi; lia.
Qed.

(** X12: the i-th button of the row belongs to the i-th crumb: it shows
    that crumb's text, its click dispatches that crumb's key with a null
    payload and nothing else, and it is disabled as the dispatcher answers
    for that key. *)
Theorem Breadcrumbs_crumb_click
    (q : option EventKey → DispatcherQuery) (props : Breadcrumbs)
    (i : nat) (c : CrumbProps) (ev : ClickEvent) :
  crumbs props !! i = Some c →
  ∃ v, trail_crumbs (trail (BreadcrumbsRender q props)) !! i = Some v
       ∧ crumb_label v = crumb_text c
       ∧ crumb_onClick v ev = [Dispatch (Some (crumb_event c)) PNull]
       ∧ crumb_disabled v
         = isLoading (q (Some (crumb_event c))) || isDisabled (q (Some (crumb_event c)))
       ∧ crumb_loader v = isLoading (q (Some (crumb_event c))).
Proof.
  intros Hi. exists (Crumb q c).
  rewrite trail_crumbs_render, list_lookup_fmap, Hi. by repeat split.
Qed.

(** X13: how the row ends.  With a non-empty [current] the last node is
    its label, bold, Fore at opacity 50; without one, or with an empty
    one, a row of crumbs ends in a chevron, and with no crumbs either the
    row is empty. *)
Theorem Breadcrumbs_trail_end
    (q : option EventKey → DispatcherQuery) (props : Breadcrumbs) :
  let row := trail (BreadcrumbsRender q props) in
  (∀ text, current props = Some text → text ≠ "" →
     last row = Some (TrailCurrent {| tl_kind := "Fore"; tl_opacity := 50;
                                      tl_isBold := true; tl_isItalic := false;
                                      tl_text := text |}))
  ∧ (current props = None ∨ current props = Some "" →
     (crumbs props ≠ [] → last row = Some TrailChevron)
     ∧ (crumbs props = [] → row = [])).
Proof.
  intros row. subst row. unfold BreadcrumbsRender. cbn [trail]. split.
  - intros text -> Hne. unfold truthy_string.
    destruct (String.eqb_spec text "") as [->|_]; [done|]. cbn [negb].
    apply last_snoc.
  - intros Hcur.
    assert (Hnone : match current props with
                    | Some text =>
                        if truthy_string text
                        then [TrailCurrent {| tl_kind := "Fore"; tl_opacity := 50;
                                              tl_isBold := true; tl_isItalic := false;
                                              tl_text := text |}]
                        else []
                    | None => []
                    end = []) by (by destruct Hcur as [-> | ->]).
    rewrite Hnone, app_nil_r. split.
    + intros Hne. destruct (crumbs props) as [|c cs _] using rev_ind; [done|].
      rewrite flat_map_app.
      change (flat_map (Crumb_fragment q) [c])
        with ([TrailCrumb (Crumb q c)] ++ [TrailChevron]).
      rewrite app_assoc. apply last_snoc.
    + by intros ->.
Qed.

(** X14: in the center layout a [thin] of false is an absent [thin] and
    gives the wide column, an empty subtitle is an absent subtitle and
    gives no subtitle line; the title is always there, bold, Fore 80, and
    not editable; and both layouts render the body exactly when there is
    one. *)
Theorem CenterLayout_falsy_fields
    (t : string) (b : option Component) (sub : option string)
    (thin : option bool) :
  CenterLayoutRender {| cl_title := t; cl_body := b; cl_subtitle := sub;
                        cl_thin := Some false |}
  = CenterLayoutRender {| cl_title := t; cl_body := b; cl_subtitle := sub;
                          cl_thin := None |}
  ∧ CenterLayoutRender {| cl_title := t; cl_body := b; cl_subtitle := Some "";
                          cl_thin := thin |}
    = CenterLayoutRender {| cl_title := t; cl_body := b; cl_subtitle := None;
                            cl_thin := thin |}
  ∧ (let v := CenterLayoutRender {| cl_title := t; cl_body := b;
                                    cl_subtitle := sub; cl_thin := thin |} in
     (clv_maxWidth v = "max-w-sm" ↔ thin = Some true)
     ∧ (clv_maxWidth v = "max-w-sm" ∨ clv_maxWidth v = "max-w-xl")
     ∧ (∀ text, clv_subtitle v = Some text ↔ sub = Some text ∧ text ≠ "")
     ∧ lbl_text (clv_title v) = t ∧ lbl_editEvent (clv_title v) = None
     ∧ clv_body v = cv_body (CenterRender {| center_body := b |})).
Proof.
  split; [reflexivity|]. split; [reflexivity|]. cbv zeta.
  unfold CenterLayoutRender, CenterRender. simpl. split.
  { destruct thin as [[]|]; simpl; split; congruence. }
  split; [destruct thin as [[]|]; simpl; by eauto|]. split; [|by repeat split].
  intros text. destruct sub as [s'|]; [|split; [discriminate|by intros [? _]]].
  unfold truthy_string. destruct (String.eqb_spec s' "") as [->|Hne]; simpl.
  - split; [discriminate|]. intros [[= <-] ?]. done.
  - split; [intros [= <-]; by split|]. by intros [[= <-] _].
Qed.

(** X15: a button and a crumb bound to one key are disabled together, and
    the button shows its spinner exactly when the crumb shows its loader:
    both read the same answer of the dispatcher. *)
Theorem Button_Crumb_disabled_together
    (q : option EventKey → DispatcherQuery) (props : Button) (crumb : CrumbProps) :
  event props = Some (crumb_event crumb) →
  btn_disabled (ButtonRender q props) = crumb_disabled (Crumb q crumb)
  ∧ (is_Some (btn_spinner (ButtonRender q props)) ↔ crumb_loader (Crumb q crumb) = true)
  ∧ (crumb_class (Crumb q crumb)
     = "relative transition-opacity opacity-80 cursor-not-allowed"
     ↔ crumb_loader (Crumb q crumb) = true).
Proof.
  intros Hkey. rewrite Button_disabled, Crumb_disabled. unfold nullish.
  rewrite Hkey. split; [apply orb_comm|]. unfold ButtonRender, Crumb, nullish.
  cbn [btn_spinner crumb_loader crumb_class]. rewrite Hkey.
  destruct (isLoading (q (Some (crumb_event crumb)))); simpl.
  - split; [split; eauto|]. by split.
  - split; split; try discriminate. by intros [? ?].
Qed.

End Runtime.

(** * Instances

    The statements above at string keys, with the empty string the only
    falsy key and a palette that names a color by its type. *)

Lemma single_flight_per_key_witness :
  let busy := run [IMount "Foo" 1; IDispatch (Some "Foo") PNull] empty_dispatcher in
  let idle := run [IMount "Foo" 1] empty_dispatcher in
  let more := [IDispatch (Some "Foo") PNull; IMount "Foo" 2;
               IDispatch (Some "Bar") PNull; ISettle "Bar" Success] in
  (in_flight "Foo" busy = true
   ∧ submitted (dispatch (Some "Foo") PNull busy).1 = [("Foo", PNull)])
  ∧ (in_flight "Foo" idle = false
     ∧ unsettled "Foo" more = true
     ∧ count_key "Foo" (submitted (run (IDispatch (Some "Foo") PNull :: more) idle)) = 1
     ∧ outstanding "Foo" (run (IDispatch (Some "Foo") PNull :: more) idle) = 1).
Proof.
  intros busy idle more. split.
  - assert (Hfl : in_flight "Foo" busy = true) by (vm_compute; reflexivity).
    split; [exact Hfl|].
    destruct (single_flight_per_key
                [IMount "Foo" 1; IDispatch (Some "Foo") PNull] "Foo" PNull [])
      as (_ & Hignored & _).
    destruct (Hignored Hfl) as (_ & Hsub & _).
    fold busy in Hsub. rewrite Hsub. vm_compute. reflexivity.
  - assert (Hidle : in_flight "Foo" idle = false) by (vm_compute; reflexivity).
    assert (Hmore : unsettled "Foo" more = true) by (vm_compute; reflexivity).
    split; [exact Hidle|]. split; [exact Hmore|].
    destruct (single_flight_per_key [IMount "Foo" 1] "Foo" PNull more)
      as (_ & _ & Honce).
    exact (Honce Hidle Hmore).
Defined.

Lemma subscribers_follow_dispatch_witness :
  let d := run [IMount "Foo" 1; IMount "Foo" 2] empty_dispatcher in
  let mid := [IMount "Foo" 3; IDispatch (Some "Foo") PNull; IUnmount "Foo" 1] in
  let d1 := (dispatch (Some "Foo") PNull d).1 in
  let d3 := (settle "Foo" (Failure "offline") (run mid d1)).1 in
  in_flight "Foo" d = false
  ∧ unsettled "Foo" mid = true
  ∧ observed "Foo" 1 d1 = Some true
  ∧ observed "Foo" 2 d1 = Some true
  ∧ observed "Foo" 3 (run mid d1) = Some true
  ∧ observed "Foo" 2 d3 = Some false
  ∧ observed "Foo" 3 d3 = Some false.
Proof.
  intros d mid d1 d3.
  assert (Hidle : in_flight "Foo" d = false) by (vm_compute; reflexivity).
  assert (Hmid : unsettled "Foo" mid = true) by (vm_compute; reflexivity).
  destruct (subscribers_follow_dispatch [IMount "Foo" 1; IMount "Foo" 2]
              "Foo" PNull mid (Failure "offline") Hidle Hmid)
    as (Hstart & _ & Hduring & _ & Hafter & _).
  split; [exact Hidle|]. split; [exact Hmid|].
  split; [apply Hstart; vm_compute; eauto|].
  split; [apply Hstart; vm_compute; eauto|].
  split; [apply Hduring; vm_compute; eauto|].
  split; apply Hafter; vm_compute; eauto.
Defined.

Lemma engine_failure_recovers_witness :
  let d := run [IMount "Foo" 1; IDispatch (Some "Foo") PNull] empty_dispatcher in
  let d' := (settle "Foo" (Failure "offline") d).1 in
  in_flight "Foo" d = true
  ∧ status (state_of "Foo" d') = Idle
  ∧ lastError (state_of "Foo" d') = Some "offline"
  ∧ btn_disabled
      (ButtonRender truthy_string (λ c _, type c) (useDispatcher d')
         (set_event (Some "Foo") (Button_new "Save"))) = false
  ∧ submitted (dispatch (Some "Foo") PNull d').1
    = submitted d' ++ [("Foo", PNull)].
Proof.
  intros d d'.
  assert (Hfl : in_flight "Foo" d = true) by (vm_compute; reflexivity).
  destruct (engine_failure_recovers truthy_string (λ c _, type c)
              [IMount "Foo" 1; IDispatch (Some "Foo") PNull]
              "Foo" "offline" PNull (Button_new "Save") Hfl)
    as (_ & Hst & Herr & _ & _ & _ & Hbtn & _ & Hretry).
  split; [exact Hfl|]. split; [exact Hst|]. split; [exact Herr|].
  split; [exact Hbtn|exact Hretry].
Defined.

Lemma loading_control_is_disabled_witness :
  let d := run [IDispatch (Some "Foo") PNull] empty_dispatcher in
  let crumb := {| crumb_event := "Foo"; crumb_text := "Hi" |} in
  let props := set_event (Some "Foo") (Button_new "Save") in
  let d' := mount "Foo" 7 d in
  (isLoading (useDispatcher d (Some "Foo")) = true
   ∧ btn_disabled (ButtonRender truthy_string (λ c _, type c) (useDispatcher d) props)
     = true
   ∧ crumb_disabled (Crumb (useDispatcher d) crumb) = true)
  ∧ (in_flight "Foo" d = true
     ∧ observed "Foo" 7 d' = Some true
     ∧ crumb_disabled (Crumb (useDispatcher d') crumb) = true).
Proof.
  intros d crumb props d'.
  assert (Hfl : in_flight "Foo" d = true) by (vm_compute; reflexivity).
  destruct (loading_control_is_disabled truthy_string (λ c _, type c)
              (useDispatcher d) props crumb d 7)
    as (Hbtn & Hcrumb & Hmount).
  split.
  - split; [exact Hfl|]. split; [exact (Hbtn Hfl)|exact (Hcrumb Hfl)].
  - destruct (Hmount Hfl) as (Hseen & _ & Hdis & _).
    split; [exact Hfl|]. split; [exact Hseen|exact Hdis].
Defined.

Lemma click_marks_then_dispatches_witness :
  let props := set_event (Some "Foo") (Button_new "Save") in
  let ev := {| event_id := 1; currentTarget := 10 |} in
  let q := useDispatcher empty_dispatcher in
  event props = Some "Foo"
  ∧ truthy_string "Foo" = true
  ∧ btn_onClick (ButtonRender truthy_string (λ c _, type c) q props) ev
    = [DoBubble 10 ev; Dispatch (Some "Foo") PNull]
  ∧ crumb_onClick (Crumb q {| crumb_event := "Bar"; crumb_text := "Hi" |}) ev
    = [Dispatch (Some "Bar") PNull].
Proof.
  intros props ev q.
  assert (Hkey : event props = Some "Foo") by reflexivity.
  assert (Htruthy : truthy_string "Foo" = true) by reflexivity.
  destruct (click_marks_then_dispatches truthy_string (λ c _, type c) q props
              {| crumb_event := "Bar"; crumb_text := "Hi" |} "Foo" ev
              empty_world Hkey Htruthy)
    as (Hbtn & _ & _ & Hcrumb).
  split; [exact Hkey|]. split; [exact Htruthy|].
  split; [exact Hbtn|exact Hcrumb].
Defined.

(** C6 as stated fails at the crumb: its handler dispatches and no call
    of it marks the event. *)
Lemma crumb_click_does_not_mark :
  let ev := {| event_id := 1; currentTarget := 10 |} in
  let calls :=
    crumb_onClick
      (Crumb (useDispatcher empty_dispatcher)
         {| crumb_event := "Bar"; crumb_text := "Hi" |}) ev in
  calls = [Dispatch (Some "Bar") PNull]
  ∧ marks_before_dispatch ev false calls = false
  ∧ ¬ (∃ el, DoBubble el ev ∈ calls).
Proof.
  intros ev calls. split; [reflexivity|]. split; [reflexivity|].
  intros [el Hin]. apply list_elem_of_singleton in Hin. discriminate.
Qed.

Lemma unbound_click_is_reported_witness :
  let props := Button_new (EventKey := string) "Save" in
  let ev := {| event_id := 1; currentTarget := 10 |} in
  let handler :=
    btn_onClick
      (ButtonRender truthy_string (λ c _, type c)
         (useDispatcher empty_dispatcher) props) in
  event props = None
  ∧ handler ev = [ConsoleError "button was clicked while disabled"]
  ∧ run_calls (handler ev) empty_world
    = ({| dispatcher := empty_dispatcher;
          page := console_error "button was clicked while disabled" empty_page |},
       Returned).
Proof.
  intros props ev handler.
  assert (Hnone : event props = None) by reflexivity.
  destruct (unbound_click_is_reported truthy_string (λ c _, type c)
              (useDispatcher empty_dispatcher) props ev empty_world Hnone)
    as (Htrace & Hrun & _).
  split; [exact Hnone|]. split; [exact Htrace|exact Hrun].
Defined.

Lemma bubble_marker_set_once_witness :
  let props := set_event (Some "Foo") (Button_new "Save") in
  let outer := [(11, AncestorListener); (12, ButtonListener props);
                (13, AncestorListener)] in
  let m := {| marker_target := 10;
              marker_event := {| event_id := 1; currentTarget := 10 |} |} in
  let w' := propagate truthy_string ((10, ButtonListener props) :: outer) 1
              empty_world in
  (event props = Some "Foo" ∧ truthy_string "Foo" = true
   ∧ markers (page (empty_world (EventKey := string))) !! 1 = None
   ∧ times_attached 1 (page (empty_world (EventKey := string))) = 0 ∧ 2 ≠ 1)
  ∧ times_attached 1 (page w') = 1
  ∧ markers (page w') !! 1 = Some m
  ∧ ripples (page w') = [(11, Some m); (13, Some m)]
  ∧ ripples (page (propagate truthy_string [(11, AncestorListener)] 2 w'))
    = [(11, Some m); (13, Some m); (11, None)].
Proof.
  intros props outer m w'.
  assert (Hkey : event props = Some "Foo") by reflexivity.
  assert (Htruthy : truthy_string "Foo" = true) by reflexivity.
  assert (Hfresh : markers (page (empty_world (EventKey := string))) !! 1 = None)
    by reflexivity.
  assert (Hzero : times_attached 1 (page (empty_world (EventKey := string))) = 0)
    by reflexivity.
  assert (Hother : 2 ≠ 1) by lia.
  destruct (bubble_marker_set_once truthy_string empty_world 1 2 10 props "Foo"
              outer [] [11] Hkey Htruthy Hfresh Hzero Hother)
    as (Honce & Hkept & Hseen & _ & _ & Hsecond).
  split; [repeat split; assumption|].
  split; [exact Honce|]. split; [exact Hkept|].
  split; [exact Hseen|exact Hsecond].
Defined.

(** ** Scenarios *)

(** One button on a key with no prior state: idle and enabled at first;
    the click marks the event, takes the key in flight and submits once;
    success leaves it idle with no error. *)
Example scenario_single_button :
  let props := set_event (Some "K1") (Button_new "Save") in
  let render d := ButtonRender truthy_string (λ c _, type c) (useDispatcher d) props in
  let w1 := propagate truthy_string [(10, ButtonListener props)] 1 empty_world in
  let d2 := (settle "K1" Success (dispatcher w1)).1 in
  btn_disabled (render empty_dispatcher) = false
  ∧ btn_spinner (render empty_dispatcher) = None
  ∧ btn_disabled (render (dispatcher w1)) = true
  ∧ submitted (dispatcher w1) = [("K1", PNull)]
  ∧ attached (page w1) = [(1, 10)]
  ∧ btn_disabled (render d2) = false
  ∧ lastError (state_of "K1" d2) = None.
Proof. vm_compute. repeat split. Qed.

(** Two buttons on one key: a click on the first shows both loading, and
    a click on the second while the call is outstanding submits nothing. *)
Example scenario_two_buttons :
  let props := set_event (Some "K1") (Button_new "Save") in
  let mounted :=
    {| dispatcher := run [IMount "K1" 1; IMount "K1" 2] empty_dispatcher;
       page := empty_page |} in
  let w1 := propagate truthy_string [(10, ButtonListener props)] 1 mounted in
  let w2 := propagate truthy_string [(20, ButtonListener props)] 2 w1 in
  observed "K1" 1 (dispatcher w1) = Some true
  ∧ observed "K1" 2 (dispatcher w1) = Some true
  ∧ submitted (dispatcher w2) = [("K1", PNull)]
  ∧ diagnostics (dispatcher w2) = [DuplicateDispatchIgnored "K1"].
Proof. vm_compute. repeat split. Qed.

(** The engine rejects: the button is enabled again and a second click
    is submitted. *)
Example scenario_rejected :
  let props := set_event (Some "K2") (Button_new "Save") in
  let w1 := propagate truthy_string [(10, ButtonListener props)] 1 empty_world in
  let w2 := {| dispatcher := (settle "K2" (Failure "rejected") (dispatcher w1)).1;
               page := page w1 |} in
  let w3 := propagate truthy_string [(10, ButtonListener props)] 2 w2 in
  btn_disabled
    (ButtonRender truthy_string (λ c _, type c) (useDispatcher (dispatcher w2)) props)
  = false
  ∧ diagnostics (dispatcher w2) = [EngineFailure "K2" "rejected"]
  ∧ submitted (dispatcher w3) = [("K2", PNull); ("K2", PNull)].
Proof. vm_compute. repeat split. Qed.

(** A button with no event: rendered disabled; a click that reaches the
    handler anyway is logged and submits nothing. *)
Example scenario_unbound :
  let props := Button_new (EventKey := string) "Save" in
  let w1 := propagate truthy_string [(10, ButtonListener props)] 1 empty_world in
  btn_disabled
    (ButtonRender truthy_string (λ c _, type c) (useDispatcher empty_dispatcher) props)
  = true
  ∧ submitted (dispatcher w1) = []
  ∧ console (page w1) = ["button was clicked while disabled"].
Proof. vm_compute. repeat split. Qed.

(** The paddings, gap and icon size of the three button sizes. *)
Example scenario_button_sizes :
  let render s :=
    ButtonRender truthy_string (λ c _, type c) (useDispatcher empty_dispatcher)
      (set_size (Some s) (Button_new (EventKey := string) "Save")) in
  (btn_px (render Large), btn_py (render Large)) = (14, 8)%Z
  ∧ (btn_px (render Medium), btn_py (render Medium)) = (11, 6)%Z
  ∧ (btn_px (render Small), btn_py (render Small)) = (8, 5)%Z.
Proof. vm_compute. repeat split. Qed.

(** ** Instances for the rest of the components *)

Lemma Header_subtitle_needs_text_witness :
  let props sub :=
    {| hp_title := "Settings"; hp_eventItems := None; hp_size := None;
       hp_subtitle := sub; hp_subtitleEditEvent := Some "Edit";
       hp_subtitlePlaceholder := Some "No description";
       hp_titleEditEvent := None; hp_titlePlaceholder := None |} in
  HeaderRender_full (set_subtitle_editing None None (props (Some "")))
  = HeaderRender_full (props (Some ""))
  ∧ (∀ v, HeaderRender_full (props (Some "About")) = Ok v →
          hv_subtitle v
          = Some {| lbl_color := {| type := "Fore"; def := 30 |};
                    lbl_bold := false; lbl_italic := false; lbl_text := "About";
                    lbl_editEvent := Some "Edit";
                    lbl_placeholder := Some "No description" |}).
Proof.
  intros props. split.
  - destruct (Header_subtitle_needs_text (props (Some "")) None None) as [Hempty _].
    apply Hempty. by right.
  - destruct (Header_subtitle_needs_text (props (Some "About")) None None)
      as [_ Htext].
    apply Htext; [reflexivity|discriminate].
Defined.

Lemma Breadcrumbs_crumb_click_witness :
  let q := λ _ : option string, {| isLoading := false; isDisabled := false |} in
  let docs := {| crumb_event := "Bar"; crumb_text := "Docs" |} in
  let props :=
    {| body := None;
       crumbs := [{| crumb_event := "Foo"; crumb_text := "Home" |}; docs];
       current := Some "Here" |} in
  let ev := {| event_id := 1; currentTarget := 10 |} in
  crumbs props !! 1 = Some docs
  ∧ ∃ v, trail_crumbs (trail (BreadcrumbsRender (id : string → string) q props)) !! 1
         = Some v
         ∧ crumb_label v = "Docs"
         ∧ crumb_onClick v ev = [Dispatch (Some "Bar") PNull].
Proof.
  intros q docs props ev.
  assert (Hi : crumbs props !! 1 = Some docs) by reflexivity.
  split; [exact Hi|].
  destruct (Breadcrumbs_crumb_click (id : string → string) q props 1 docs ev Hi)
    as (v & Hv & Hlabel & Hclick & _).
  exists v. split; [exact Hv|]. split; [exact Hlabel|exact Hclick].
Defined.

Lemma Breadcrumbs_trail_end_witness :
  let q := λ _ : option string, {| isLoading := false; isDisabled := false |} in
  let home := [{| crumb_event := "Foo"; crumb_text := "Home" |}] in
  last (trail (BreadcrumbsRender (id : string → string) q
                 {| body := None; crumbs := home; current := Some "" |}))
  = Some TrailChevron
  ∧ last (trail (BreadcrumbsRender (id : string → string) q
                   {| body := None; crumbs := home; current := Some "Here" |}))
    = Some (TrailCurrent {| tl_kind := "Fore"; tl_opacity := 50;
                            tl_isBold := true; tl_isItalic := false;
                            tl_text := "Here" |}).
Proof.
  intros q home. split.
  - destruct (Breadcrumbs_trail_end (id : string → string) q
                {| body := None; crumbs := home; current := Some "" |})
      as [_ Hnone].
    destruct Hnone as [Hlast _]; [by right|]. by apply Hlast.
  - destruct (Breadcrumbs_trail_end (id : string → string) q
                {| body := None; crumbs := home; current := Some "Here" |})
      as [Hcur _].
    by apply Hcur.
Defined.

Lemma Button_Crumb_disabled_together_witness :
  let q := λ _ : option string, {| isLoading := true; isDisabled := false |} in
  let props := set_event (Some "Foo") (Button_new "Save") in
  let crumb := {| crumb_event := "Foo"; crumb_text := "Home" |} in
  event props = Some (crumb_event crumb)
  ∧ btn_disabled (ButtonRender truthy_string (λ c _, type c) q props)
    = crumb_disabled (Crumb q crumb).
Proof.
  intros q props crumb.
  assert (Hkey : event props = Some (crumb_event crumb)) by reflexivity.
  split; [exact Hkey|].
  destruct (Button_Crumb_disabled_together truthy_string (λ c _, type c) q
              props crumb Hkey) as [Hsame _].
  exact Hsame.
Defined.

Lemma Button_onClick_calls_witness :
  let q := λ _ : option string, {| isLoading := false; isDisabled := false |} in
  let props := set_event (Some "Foo") (Button_new "Save") in
  let ev := {| event_id := 1; currentTarget := 10 |} in
  let calls := btn_onClick (ButtonRender truthy_string (λ c _, type c) q props) ev in
  Dispatch (Some "Foo") PNull ∈ calls
  ∧ calls = [DoBubble 10 ev; Dispatch (Some "Foo") PNull].
Proof.
  intros q props ev calls.
  assert (Hin : Dispatch (Some "Foo") PNull ∈ calls).
  { apply elem_of_cons. right. apply elem_of_cons. by left. }
  split; [exact Hin|].
  destruct (Button_onClick_calls truthy_string (λ c _, type c) q props ev)
    as [Hdispatch _].
  destruct (Hdispatch (Some "Foo") PNull Hin) as (k & Hk & _ & _ & _ & Hcalls).
  injection Hk as <-. exact Hcalls.
Defined.
